(** * Neo4jQueryBuilder: a shallow embedding of [src/query-builder.ts]

    The builder is a mutable object whose methods thread its fields through
    one another; it is embedded as a state monad over the record [Builder].
    A method that reads a property of [undefined] or [null] raises a
    [TypeError] in JavaScript, so the monad also carries a completion. *)

From Stdlib Require Import Ascii.
From Stdlib Require String.
From stdpp Require Import base list strings gmap fin_maps pretty.

(** ** Strings

    A character stands for one code unit of a JavaScript string. *)

Module Str.

(** [s ? ... : ...] on a string: the empty string is the only falsy one. *)
Definition truthy (s : string) : bool := negb (String.eqb s "").

(** [o ? ... : ...] and [!o] on [string | undefined]. *)
Definition truthy_opt (o : option string) : bool :=
  match o with
  | Some s => truthy s
  | None => false
  end.

(** [arr.join(sep)] on an array of strings. *)
Definition join (sep : string) (arr : list string) : string :=
  String.concat sep arr.

(** [s.startsWith(p)]. *)
Definition startsWith (s p : string) : bool := String.prefix p s.

(** [s.endsWith(p)]. *)
Definition endsWith (s p : string) : bool :=
  String.eqb
    (String.substring (String.length s - String.length p) (String.length p) s) p
  && (String.length p <=? String.length s).

(** The character class [[a-zA-Z0-9]]. *)
Definition alnum (c : ascii) : bool :=
  let n := nat_of_ascii c in
  ((97 <=? n) && (n <=? 122)) || ((65 <=? n) && (n <=? 90))
  || ((48 <=? n) && (n <=? 57)).

(** [s.replace(/[^a-zA-Z0-9]/g, '_')]. *)
Fixpoint sanitize (s : string) : string :=
  match s with
  | EmptyString => EmptyString
  | String c s' => String (if alnum c then c else "_"%char) (sanitize s')
  end.

End Str.

(** ** Values that may be absent

    An optional object argument reaches the code as an object, as
    [undefined] or (from an untyped caller) as [null]; only [undefined] is
    replaced by a default parameter. *)

Inductive js (A : Type) : Type :=
| undefined
| null
| object (a : A).
Arguments undefined {A}.
Arguments null {A}.
Arguments object {A} a.

(** A default parameter [x = d]. *)
Definition default_param {A} (d : A) (x : js A) : js A :=
  match x with
  | undefined => object d
  | _ => x
  end.

Inductive Error : Type := TypeError.

Inductive Completion (A : Type) : Type :=
| Normal (a : A)
| Throw (e : Error).
Arguments Normal {A} a.
Arguments Throw {A} e.

(** ** Plain objects used as property bags

    A property mapping is represented by its own enumerable string-keyed
    properties in iteration order, that is by [Object.entries].  The values
    are never inspected by the builder and stay abstract. *)

Module Obj.

Definition props (V : Type) : Type := list (string * V).

(** [Object.entries(o)] and [Object.keys(o)]. *)
Definition entries {V} (o : props V) : list (string * V) := o.
Definition own_keys {V} (o : props V) : list string := (entries o).*1.

(** [o[k] = v] on an object created by the literal [{}]: the property is
    created or overwritten, except under the name [__proto__], which
    reaches the setter that the object inherits from [Object.prototype] and
    creates no own property.  (What that setter does to the prototype when
    the value is an object or [null] is outside this model.) *)
Definition assign {V} (k : string) (v : V) (o : gmap string V) : gmap string V :=
  if String.eqb k "__proto__" then o else <[k:=v]> o.

(** [{ ...a, ...b }]: the properties of [b] win. *)
Definition spread {V} (a b : gmap string V) : gmap string V := b ∪ a.

End Obj.

(** ** [Map] with string keys, in insertion order *)

Module JsMap.

Definition Map (A : Type) : Type := list (string * A).

Definition keys {A} (m : Map A) : list string := m.*1.

Definition has {A} (k : string) (m : Map A) : bool :=
  existsb (String.eqb k) (keys m).

(** [m.set(k, v)]: an existing key keeps its position. *)
Fixpoint set {A} (k : string) (v : A) (m : Map A) : Map A :=
  match m with
  | [] => [(k, v)]
  | (k', v') :: m' =>
      if String.eqb k' k then (k', v) :: m' else (k', v') :: set k v m'
  end.

End JsMap.

(** ** Data model *)

Inductive RelationshipDirections : Type := from | to | both | none.

Module Node.
Record node : Type := { nodeVar : string; label : string }.
End Node.

Module NodeSelector.
Record selector (V : Type) : Type :=
  { label : option string;
    variable : option string;
    properties : js (Obj.props V) }.
Arguments label {V} _.
Arguments variable {V} _.
Arguments properties {V} _.
Arguments Build_selector {V} _ _ _.

(** The object literal [{}]. *)
Definition empty {V} : selector V :=
  {| label := None; variable := None; properties := undefined |}.
End NodeSelector.

(** The relationship attributes [{ variable, label, properties }], all
    optional, have the shape of a node selector. *)
Abbreviation RelationshipRef := NodeSelector.selector.

Module Built.
Record built (V : Type) : Type := { query : string; params : gmap string V }.
Arguments query {V} _.
Arguments params {V} _.
Arguments Build_built {V} _ _.
End Built.

Record Builder (V : Type) : Type :=
  { lastNodeVar : string;
    lastNodeVarIndex : nat;
    nodes : JsMap.Map Node.node;
    params : gmap string V;
    query : list string;
    return_ : string }.
Arguments lastNodeVar {V} _.
Arguments lastNodeVarIndex {V} _.
Arguments nodes {V} _.
Arguments params {V} _.
Arguments query {V} _.
Arguments return_ {V} _.
Arguments Build_Builder {V} _ _ _ _ _ _.

Definition nodeVarIndex : list string :=
  ["a"; "b"; "c"; "d"; "e"; "f"; "g"; "h"; "i"; "j"; "k"; "l"; "m";
   "n"; "o"; "p"; "q"; "r"; "s"; "t"; "u"; "v"; "w"; "x"; "y"; "z"].

(** [nodeVarIndex[i]] inside a concatenation: past the end the read gives
    [undefined], which concatenates as the text "undefined". *)
Definition nodeVarIndex_at (i : nat) : string :=
  default "undefined" (nodeVarIndex !! i).

(** ** The builder monad

    A method runs on the builder and either returns a value or throws; the
    fields keep what was assigned before a throw. *)

Definition M (V A : Type) : Type := Builder V -> Completion A * Builder V.

Definition ret {V A} (a : A) : M V A := fun this => (Normal a, this).

Definition bind {V A B} (m : M V A) (k : A -> M V B) : M V B :=
  fun this =>
    match m this with
    | (Normal a, this') => k a this'
    | (Throw e, this') => (Throw e, this')
    end.

Definition throw {V A} (e : Error) : M V A := fun this => (Throw e, this).
Definition get {V} : M V (Builder V) := fun this => (Normal this, this).
Definition modify {V} (f : Builder V -> Builder V) : M V unit :=
  fun this => (Normal tt, f this).

(** A computation that does not touch the builder. *)
Definition lift {V A} (c : Completion A) : M V A := fun this => (c, this).

Notation "'let*' x ':=' m 'in' k" := (bind m (fun x => k))
  (at level 10, x pattern, m at level 100, k at level 200).
Notation "m ';;' k" := (bind m (fun _ => k))
  (at level 100, k at level 200, right associativity).

(** Field assignments [this.f = v]. *)
Definition set_lastNodeVar {V} (v : string) (this : Builder V) : Builder V :=
  Build_Builder v (lastNodeVarIndex this) (nodes this) (params this)
    (query this) (return_ this).
Definition set_lastNodeVarIndex {V} (v : nat) (this : Builder V) : Builder V :=
  Build_Builder (lastNodeVar this) v (nodes this) (params this)
    (query this) (return_ this).
Definition set_nodes {V} (v : JsMap.Map Node.node) (this : Builder V)
  : Builder V :=
  Build_Builder (lastNodeVar this) (lastNodeVarIndex this) v (params this)
    (query this) (return_ this).
Definition set_params {V} (v : gmap string V) (this : Builder V) : Builder V :=
  Build_Builder (lastNodeVar this) (lastNodeVarIndex this) (nodes this) v
    (query this) (return_ this).
Definition set_query {V} (v : list string) (this : Builder V) : Builder V :=
  Build_Builder (lastNodeVar this) (lastNodeVarIndex this) (nodes this)
    (params this) v (return_ this).
Definition set_return {V} (v : string) (this : Builder V) : Builder V :=
  Build_Builder (lastNodeVar this) (lastNodeVarIndex this) (nodes this)
    (params this) (query this) v.

(** [new Neo4jQueryBuilder()]: the field initialisers. *)
Definition newBuilder {V} : Builder V :=
  {| lastNodeVar := ""; lastNodeVarIndex := 0; nodes := [];
     params := ∅; query := []; return_ := "" |}.

(** ** The methods of [Neo4jQueryBuilder] *)

Section Methods.
Context {V : Type}.

(** [build()]. *)
Definition build : M V (Built.built V) :=
  let* this := get in
  let nodeKeys := JsMap.keys (nodes this) in
  ret {| Built.query :=
           Str.join " "
             (query this ++
              [if Str.truthy (return_ this) then return_ this
               else "RETURN " +:+ Str.join ", " nodeKeys]);
         Built.params := params this |}.

(** [similarNodes(nodeVar)]. *)
Definition similarNodes (nodeVar : string) (this : Builder V) : list string :=
  filter (fun node => Str.startsWith node nodeVar = true)
    (JsMap.keys (nodes this)).

(** [generateNodeVar(variable?)]. *)
Definition generateNodeVar (variable : option string) : M V string :=
  let* nodeVar :=
    (if negb (Str.truthy_opt variable) then
       let* this := get in
       let nodeVar :=
         lastNodeVar this +:+ nodeVarIndex_at (lastNodeVarIndex this) in
       modify (fun this =>
                 set_lastNodeVarIndex (S (lastNodeVarIndex this)) this) ;;
       let* this := get in
       (if length nodeVarIndex - 1 <? lastNodeVarIndex this then
          modify (set_lastNodeVarIndex 0) ;;
          modify (fun this =>
                    set_lastNodeVar
                      (lastNodeVar this
                       +:+ nodeVarIndex_at (lastNodeVarIndex this)) this)
        else ret tt) ;;
       ret nodeVar
     else ret (default "" variable)) in
  let* this := get in
  if JsMap.has nodeVar (nodes this) then
    let nodeIndex := length (similarNodes nodeVar this) in
    ret (nodeVar +:+ "_" +:+ pretty nodeIndex)
  else ret nodeVar.

(** [getNodeVarOrGenerate(nodeVar?)]: [nodeVar ?? this.generateNodeVar()]. *)
Definition getNodeVarOrGenerate (nodeVar : option string) : M V string :=
  match nodeVar with
  | Some nodeVar => ret nodeVar
  | None => generateNodeVar None
  end.

(** The body of the loop of [generatePropertySelectors]. *)
Definition selector_step (nodeVar : string)
    (acc : list string * gmap string V) (entry : string * V)
  : list string * gmap string V :=
  let '(parameterizedStrArr, params) := acc in
  let '(key, value) := entry in
  let sanitizedKey := Str.sanitize key in
  let paramKey := nodeVar +:+ "_" +:+ sanitizedKey in
  (parameterizedStrArr ++ [key +:+ ": $" +:+ paramKey],
   Obj.assign paramKey value params).

(** [generatePropertySelectors(nodeVar, record)]; [Object.keys] throws on
    [undefined] and [null]. *)
Definition generatePropertySelectors (nodeVar : string)
    (record : js (Obj.props V)) : Completion (string * gmap string V) :=
  match record with
  | undefined | null => Throw TypeError
  | object record =>
      if length (Obj.own_keys record) =? 0 then Normal ("", ∅)
      else
        let '(parameterizedStrArr, params) :=
          fold_left (selector_step nodeVar) (Obj.entries record) ([], ∅) in
        Normal (" {" +:+ Str.join ", " parameterizedStrArr +:+ "}", params)
  end.

(** [buildNodeReference(nodeVar, label = '', properties = {})]. *)
Definition buildNodeReference (nodeVar : string) (label : option string)
    (properties : js (Obj.props V)) : M V string :=
  let label := default "" label in
  let properties := default_param [] properties in
  let* selectors := lift (generatePropertySelectors nodeVar properties) in
  let '(parameterizedString, parameters) := selectors in
  modify (fun this => set_params (Obj.spread (params this) parameters) this) ;;
  ret (Str.join ""
         [nodeVar; if Str.truthy label then ":" +:+ label else "";
          parameterizedString]).

(** [buildRelationshipReference(source, target, direction = 'none',
    attributes = {})]. *)
Definition buildRelationshipReference
    (source target : NodeSelector.selector V)
    (direction : option RelationshipDirections)
    (attributes : js (RelationshipRef V)) : M V string :=
  let direction := default none direction in
  let attributes := default_param NodeSelector.empty attributes in
  let* sourceVar := getNodeVarOrGenerate (NodeSelector.variable source) in
  let* sourceNode :=
    buildNodeReference sourceVar (NodeSelector.label source)
      (NodeSelector.properties source) in
  let sourceRef := "(" +:+ sourceNode +:+ ")" in
  let* targetVar := getNodeVarOrGenerate (NodeSelector.variable target) in
  let* targetNode :=
    buildNodeReference targetVar (NodeSelector.label target)
      (NodeSelector.properties target) in
  let targetRef := "(" +:+ targetNode +:+ ")" in
  let* attributes :=
    (match attributes with
     | object attributes => ret attributes
     | _ => throw TypeError
     end) in
  let* relationshipVar := generateNodeVar (NodeSelector.variable attributes) in
  let* relationshipPattern :=
    (if Str.truthy_opt (NodeSelector.label attributes)
        || Str.truthy_opt (NodeSelector.variable attributes)
     then
       let* relationshipRef :=
         buildNodeReference relationshipVar (NodeSelector.label attributes)
           (NodeSelector.properties attributes) in
       ret ("[" +:+ relationshipRef +:+ "]")
     else ret "") in
  let arrowDirection :=
    match direction with
    | from => "-" +:+ relationshipPattern +:+ "->"
    | to => "<-" +:+ relationshipPattern +:+ "-"
    | both | none => "-" +:+ relationshipPattern +:+ "-"
    end in
  (if Str.truthy relationshipPattern then
     modify (fun this =>
               set_nodes
                 (JsMap.set relationshipVar
                    {| Node.nodeVar := relationshipVar;
                       Node.label :=
                         default "" (NodeSelector.label attributes) |}
                    (nodes this)) this)
   else ret tt) ;;
  ret (sourceRef +:+ arrowDirection +:+ targetRef).

(** [createNode(label, properties = {}, variable?)]. *)
Definition createNode (label : string) (properties : js (Obj.props V))
    (variable : option string) : M V unit :=
  let properties := default_param [] properties in
  let* nodeVar := generateNodeVar variable in
  modify (fun this =>
            set_nodes
              (JsMap.set nodeVar
                 {| Node.nodeVar := nodeVar; Node.label := label |}
                 (nodes this)) this) ;;
  let* ref := buildNodeReference nodeVar (Some label) properties in
  modify (fun this =>
            set_query (query this ++ ["MERGE (" +:+ ref +:+ ")"]) this).

(** [customReturn(...nodes)]. *)
Definition customReturn (nodes : list string) : M V unit :=
  modify (set_return ("RETURN " +:+ Str.join "," nodes)).

(** [join(sourceNode, targetNode, direction = 'none', attributes?)]. *)
Definition join (sourceNode targetNode : string)
    (direction : option RelationshipDirections)
    (attributes : js (RelationshipRef V)) : M V unit :=
  let direction := default none direction in
  let* queryStr :=
    buildRelationshipReference
      {| NodeSelector.label := None;
         NodeSelector.variable := Some sourceNode;
         NodeSelector.properties := undefined |}
      {| NodeSelector.label := None;
         NodeSelector.variable := Some targetNode;
         NodeSelector.properties := undefined |}
      (Some direction) attributes in
  modify (fun this => set_query (query this ++ ["MATCH " +:+ queryStr]) this).

(** [select(label, nodeVar?, filter?)]. *)
Definition select (label : string) (nodeVar : option string)
    (filter : js (Obj.props V)) : M V unit :=
  let* node := generateNodeVar nodeVar in
  modify (fun this =>
            set_nodes
              (JsMap.set node {| Node.nodeVar := node; Node.label := label |}
                 (nodes this)) this) ;;
  let* ref := buildNodeReference node (Some label) filter in
  modify (fun this =>
            set_query (query this ++ ["MATCH (" +:+ ref +:+ ")"]) this).

End Methods.

(** ** Vocabulary of the specification *)

Section Vocabulary.
Context {V : Type}.

(** The name under which the value of property [key] of the entity
    [nodeVar] is registered: [`${nodeVar}_${sanitizedKey}`]. *)
Definition paramKey (nodeVar key : string) : string :=
  nodeVar +:+ "_" +:+ Str.sanitize key.



(** The return clause that [build()] writes when no custom one is set. *)
Definition defaultReturn (this : Builder V) : string :=
  "RETURN " +:+ Str.join ", " (JsMap.keys (nodes this)).

(** The arrow that is emitted when no relationship pattern is. *)
Definition bareArrow (direction : option RelationshipDirections) : string :=
  match default none direction with
  | from => "-->"
  | to => "<--"
  | both | none => "--"
  end.

(** The relationship attributes carry neither a label nor an alias. *)
Definition neitherLabelNorAlias (attributes : js (RelationshipRef V)) : bool :=
  match attributes with
  | undefined => true
  | null => false
  | object a =>
      negb (Str.truthy_opt (NodeSelector.label a))
      && negb (Str.truthy_opt (NodeSelector.variable a))
  end.

(** One call of the generator without a requested alias; the caller may
    register the alias it receives ([select], [createNode]) or not (the
    source and target of [buildRelationshipReference]). *)
Definition autoAlias (register : bool) : M V string :=
  let* nodeVar := generateNodeVar None in
  (if register then
     modify (fun this =>
               set_nodes
                 (JsMap.set nodeVar
                    {| Node.nodeVar := nodeVar; Node.label := "" |}
                    (nodes this)) this)
   else ret tt) ;;
  ret nodeVar.

(** Consecutive generator calls on one builder. *)
Fixpoint autoAliases (registers : list bool) : M V (list string) :=
  match registers with
  | [] => ret []
  | register :: registers =>
      let* nodeVar := autoAlias register in
      let* nodeVars := autoAliases registers in
      ret (nodeVar :: nodeVars)
  end.

(** The aliases handed out so far, as the counters see them: each is no
    longer than the current base string, or is the base string followed by
    a letter that the offset has passed; the registered ones are among
    them. *)
Definition Handed (this : Builder V) (seen : list string) : Prop :=
  lastNodeVarIndex this < 26
  /\ (forall x, x ∈ JsMap.keys (nodes this) -> x ∈ seen)
  /\ (forall x,
         x ∈ seen ->
         String.length x <= String.length (lastNodeVar this)
         \/ exists j,
              j < lastNodeVarIndex this
              /\ x = lastNodeVar this +:+ nodeVarIndex_at j).

(** The public operations and what they return. *)
Inductive Call : Type :=
| CallSelect (label : string) (nodeVar : option string)
    (filter : js (Obj.props V))
| CallCreateNode (label : string) (properties : js (Obj.props V))
    (variable : option string)
| CallJoin (sourceNode targetNode : string)
    (direction : option RelationshipDirections)
    (attributes : js (RelationshipRef V))
| CallBuildNodeReference (nodeVar : string) (label : option string)
    (properties : js (Obj.props V))
| CallBuildRelationshipReference (source target : NodeSelector.selector V)
    (direction : option RelationshipDirections)
    (attributes : js (RelationshipRef V))
| CallCustomReturn (nodes : list string)
| CallBuild.

Inductive Returned : Type :=
| ReturnedThis
| ReturnedText (s : string)
| ReturnedBuilt (r : Built.built V).

Definition perform (c : Call) : M V Returned :=
  match c with
  | CallSelect label nodeVar filter =>
      select label nodeVar filter ;; ret ReturnedThis
  | CallCreateNode label properties variable =>
      createNode label properties variable ;; ret ReturnedThis
  | CallJoin sourceNode targetNode direction attributes =>
      join sourceNode targetNode direction attributes ;; ret ReturnedThis
  | CallBuildNodeReference nodeVar label properties =>
      let* s := buildNodeReference nodeVar label properties in
      ret (ReturnedText s)
  | CallBuildRelationshipReference source target direction attributes =>
      let* s :=
        buildRelationshipReference source target direction attributes in
      ret (ReturnedText s)
  | CallCustomReturn nodes => customReturn nodes ;; ret ReturnedThis
  | CallBuild => let* r := build in ret (ReturnedBuilt r)
  end.

(** The documented shape of an optional object: the object or
    [undefined]. *)
Definition optional {A} (shape : A -> bool) (x : js A) : bool :=
  match x with
  | undefined => true
  | null => false
  | object a => shape a
  end.

Definition plainMapping (_ : Obj.props V) : bool := true.



End Vocabulary.

(** The scenarios use numbers as property values. *)
Definition scenario {A} (m : M Z A) : Completion A := fst (m newBuilder).

(** The builder after [select("Car", "car")] and
    [select("Property", "prop")]. *)
Definition carAndProp : Builder Z :=
  {| lastNodeVar := ""; lastNodeVarIndex := 0;
     nodes := [("car", {| Node.nodeVar := "car"; Node.label := "Car" |});
               ("prop", {| Node.nodeVar := "prop";
                           Node.label := "Property" |})];
     params := ∅;
     query := ["MATCH (car:Car)"; "MATCH (prop:Property)"];
     return_ := "" |}.

(** [join("car", "prop", "from", { label: "RACES_AT", variable: "r",
    properties: { since: 2023 } })]. *)
Definition joinRacesAt : Call (V:=Z) :=
  CallJoin "car" "prop" (Some from)
    (object {| NodeSelector.label := Some "RACES_AT";
               NodeSelector.variable := Some "r";
               NodeSelector.properties := object [("since", 2023%Z)] |}).

(** ** Further vocabulary *)

Section Further.
Context {V : Type}.

(** The text of a node reference,
    [[nodeVar, label ? `:${label}` : '', parameterizedString].join('')]. *)
Definition nodeReferenceText (nodeVar label token : string) : string :=
  Str.join "" [nodeVar; if Str.truthy label then ":" +:+ label else ""; token].


(** [alias], [alias_1], [alias_2], ... *)
Definition suffixed (alias : string) (i : nat) : string :=
  match i with
  | 0 => alias
  | S _ => alias +:+ "_" +:+ pretty i
  end.

(** [select(label, alias)] called [n] times in a row. *)
Fixpoint selects (label alias : string) (n : nat) : M V unit :=
  match n with
  | 0 => ret tt
  | S n => select label (Some alias) undefined ;; selects label alias n
  end.

(** The base string after [q] turns of the alphabet. *)
Fixpoint baseString (q : nat) : string :=
  match q with
  | 0 => ""
  | S q => baseString q +:+ "a"
  end.

(** The alias of the generator call number [k], counted from 0. *)
Definition nthAlias (k : nat) : string :=
  baseString (k / 26) +:+ nodeVarIndex_at (k mod 26).

(** A caller that makes the calls one after the other and goes on after
    a call that throws. *)
Fixpoint performAll (cs : list (Call (V:=V))) (this : Builder V) : Builder V :=
  match cs with
  | [] => this
  | c :: cs => performAll cs (snd (perform c this))
  end.

(** Whatever a method returns or throws, the builder it leaves is related
    by [R] to the one it found. *)
Definition Keeps (R : Builder V -> Builder V -> Prop) {A} (m : M V A) : Prop :=
  forall this c this', m this = (c, this') -> R this this'.

(** Nothing committed is lost: the clauses and the registered aliases are
    extended at the end, the parameter names stay bound. *)
Definition Grows (this this' : Builder V) : Prop :=
  query this `prefix_of` query this'
  /\ JsMap.keys (nodes this) `prefix_of` JsMap.keys (nodes this')
  /\ dom (params this) ⊆ dom (params this').

(** The offset points into the alphabet and the base string is made of
    the letter [a]. *)
Definition CountersInRange (this : Builder V) : Prop :=
  lastNodeVarIndex this < length nodeVarIndex
  /\ exists q, lastNodeVar this = baseString q.

(** No character of the string is an underscore. *)
Definition underscoreFree (s : string) : bool :=
  forallb (fun c => negb (Ascii.eqb c "_")) (String.list_ascii_of_string s).

End Further.

(** ** [helpers.ts] and the parts of [neo4j.ts] that compute

    The driver's [DateTime] class, its [toString] and the other values a
    node may hold are parameters. *)

Module Helpers.
Section DateProperties.
Context {DateTime Other : Type} (toString : DateTime -> string).

(** A property value: an instance of [DateTime], a string, [undefined] or
    anything else. *)
Inductive Field : Type :=
| FDateTime (d : DateTime)
| FString (s : string)
| FUndefined
| FOther (o : Other).

(** [data[key] instanceof DateTime ? data[key].toString() : data[key]]. *)
Definition stringified (f : Field) : Field :=
  match f with
  | FDateTime d => FString (toString d)
  | _ => f
  end.

(** [parseDateProperties(data, dateKeys)]: [data[key]] throws when [data]
    is [undefined] or [null]. *)
Fixpoint parseDateProperties (data : js (gmap string Field))
    (dateKeys : list string) : Completion (js (gmap string Field)) :=
  match dateKeys with
  | [] => Normal data
  | key :: dateKeys =>
      match data with
      | undefined | null => Throw TypeError
      | object o =>
          parseDateProperties
            (object match o !! key with
                    | Some (FDateTime d) => <[key := FString (toString d)]> o
                    | _ => o
                    end)
            dateKeys
      end
  end.

(** A node of the driver: [properties], [labels] and [identity]. *)
Record NodeValue : Type :=
  { properties : js (gmap string Field);
    labels : Field;
    identity : Field }.

(** [{ ...record.properties, labels: record.labels,
       _id: record.identity }]. *)
Definition flattened (record : NodeValue) : gmap string Field :=
  <["_id" := identity record]>
    (<["labels" := labels record]>
       match properties record with
       | object o => o
       | _ => ∅
       end).

(** [parseResponse(result)]: a record of the result is given by the
    values of [record.toObject()]. *)
Fixpoint parseValues (values : list NodeValue)
  : Completion (list (js (gmap string Field))) :=
  match values with
  | [] => Normal []
  | record :: values =>
      match parseDateProperties (object (flattened record))
              ["createdAt"; "updatedAt"; "identity"] with
      | Throw e => Throw e
      | Normal data =>
          match parseValues values with
          | Throw e => Throw e
          | Normal rest => Normal (data :: rest)
          end
      end
  end.

Definition parseResponse (result : list (list NodeValue))
  : Completion (list (js (gmap string Field))) :=
  parseValues (concat result).

End DateProperties.
End Helpers.

Module Neo4j.
Section Statements.
Context {V : Type}.

(** [QueryInterface]: the optional [where] and [join]. *)
Record QueryInterface : Type :=
  { where_ : js (Obj.props V);
    join_ : js (Obj.props RelationshipDirections) }.

(** The statement that [select(table, query)] passes to [execute]:
    [new Neo4jQueryBuilder().select(table, 'n', query?.where).build()]. *)
Definition selectStatement (table : string) (query : js QueryInterface)
  : Completion (Built.built V) :=
  let where_ :=
    match query with
    | object query => where_ query
    | _ => undefined
    end in
  fst ((select table (Some "n") where_ ;; build) newBuilder).

(** [directionStr] of [join(relationshipLabel, source, target,
    direction)]. *)
Definition directionStr (relationshipLabel : string)
    (direction : RelationshipDirections) : string :=
  let directionStr := "-[r:" +:+ relationshipLabel +:+ "]-" in
  match direction with
  | from => "-[r:" +:+ relationshipLabel +:+ "]->"
  | to => "<-[r:" +:+ relationshipLabel +:+ "]-"
  | both => "-[r:" +:+ relationshipLabel +:+ "]-"
  | none => directionStr
  end.

End Statements.
End Neo4j.

(** * Properties *)

(** ** Scenarios on a fresh builder *)

(** C1: on a fresh builder, [select("Car", "car", {id: 1})], then
    [customReturn("car")], then [build()] returns exactly the query
    [MATCH (car:Car {id: $car_id}) RETURN car] with the parameters
    [{car_id: 1}]. *)
Theorem select_customReturn_build :
  scenario (select "Car" (Some "car") (object [("id", 1%Z)]) ;;
            customReturn ["car"] ;;
            build)
  = Normal {| Built.query := "MATCH (car:Car {id: $car_id}) RETURN car";
              Built.params := {[ "car_id" := 1%Z ]} |}.
Proof. vm_compute. reflexivity. Qed.

(** C10: [build()] on a freshly constructed builder returns the query
    ["RETURN "] (an empty alias list after the keyword and its space) and
    no parameters; it does not throw and the query is not empty. *)
Theorem build_fresh (V : Type) :
  build (V:=V) newBuilder
  = (Normal {| Built.query := "RETURN "; Built.params := ∅ |}, newBuilder).
Proof. reflexivity. Qed.

(** C7: [build()] leaves the builder as it found it, so a second [build()]
    with no call in between returns the same query and the same
    parameters as the first. *)
Theorem build_twice (V : Type) (this : Builder V) :
  exists r,
    build this = (Normal r, this)
    /\ (let* r1 := build in let* r2 := build in ret (r1, r2)) this
       = (Normal (r, r), this).
Proof. eexists. split; reflexivity. Qed.

(** ** Cases of the repository's test suite

    The embedding gives the values that [query-builder.spec.ts] expects. *)

Lemma test_relationship_properties :
  scenario (let* ref :=
              buildRelationshipReference
                (NodeSelector.Build_selector None (Some "car") undefined)
                (NodeSelector.Build_selector None (Some "prop") undefined)
                (Some from)
                (object (NodeSelector.Build_selector None (Some "rel")
                           (object [("special-key", 7%Z)]))) in
            let* built := build in
            ret (ref, Built.params built))
  = Normal ("(car)-[rel {special-key: $rel_special_key}]->(prop)",
            {[ "rel_special_key" := 7%Z ]}).
Proof. vm_compute. reflexivity. Qed.

Lemma test_relationship_label_only :
  scenario (buildRelationshipReference
              (NodeSelector.Build_selector None (Some "car") undefined)
              (NodeSelector.Build_selector None (Some "prop") undefined)
              (Some from)
              (object (NodeSelector.Build_selector (Some "RACES_AT") None
                         undefined)))
  = Normal "(car)-[a:RACES_AT]->(prop)".
Proof. vm_compute. reflexivity. Qed.

Lemma test_no_label_or_variable :
  scenario (buildRelationshipReference
              (NodeSelector.Build_selector None (Some "car") undefined)
              (NodeSelector.Build_selector None (Some "prop") undefined)
              None undefined)
  = Normal "(car)--(prop)".
Proof. vm_compute. reflexivity. Qed.

Lemma test_join :
  scenario (select "Car" (Some "car") (object [("id", 1%Z)]) ;;
            select "Property" (Some "prop") (object [("type", 2%Z)]) ;;
            join "car" "prop" (Some from)
              (object (NodeSelector.Build_selector (Some "RACES_AT")
                         (Some "r") undefined)) ;;
            customReturn ["car"; "prop"] ;;
            build)
  = Normal {| Built.query :=
                "MATCH (car:Car {id: $car_id}) "
                +:+ "MATCH (prop:Property {type: $prop_type}) "
                +:+ "MATCH (car)-[r:RACES_AT]->(prop) RETURN car,prop";
              Built.params := {[ "car_id" := 1%Z; "prop_type" := 2%Z ]} |}.
Proof. vm_compute. reflexivity. Qed.

(** ** The default return clause *)

Lemma str_app_cons (c : ascii) (s1 s2 : string) :
  String c s1 +:+ s2 = String c (s1 +:+ s2).
Proof. reflexivity. Qed.

Lemma str_app_assoc (s1 s2 s3 : string) :
  (s1 +:+ s2) +:+ s3 = s1 +:+ s2 +:+ s3.
Proof.
  induction s1 as [|c s1 IH]; [reflexivity |].
  by rewrite !str_app_cons, IH.
Qed.

Lemma str_app_length (s1 s2 : string) :
  String.length (s1 +:+ s2) = String.length s1 + String.length s2.
Proof.
  induction s1 as [|c s1 IH]; [reflexivity |].
  rewrite str_app_cons. simpl. by rewrite IH.
Qed.

Lemma join_snoc (sep : string) (arr : list string) (x : string) :
  Str.join sep (arr ++ [x])
  = match arr with
    | [] => x
    | _ => Str.join sep arr +:+ sep +:+ x
    end.
Proof.
  unfold Str.join. induction arr as [|y arr IH]; [reflexivity |].
  destruct arr as [|z arr]; [reflexivity |].
  change (String.concat sep ((y :: z :: arr) ++ [x]))
    with (y +:+ sep +:+ String.concat sep ((z :: arr) ++ [x])).
  rewrite IH.
  change (String.concat sep (y :: z :: arr))
    with (y +:+ sep +:+ String.concat sep (z :: arr)).
  by rewrite !str_app_assoc.
Qed.

Lemma JsMap_keys_set {A} (k : string) (v : A) (m : JsMap.Map A) :
  JsMap.keys (JsMap.set k v m)
  = if JsMap.has k m then JsMap.keys m else JsMap.keys m ++ [k].
Proof.
  unfold JsMap.has, JsMap.keys.
  induction m as [|[k' v'] m IH]; [reflexivity |].
  cbn [JsMap.set fmap list_fmap existsb fst].
  rewrite (String.eqb_sym k k').
  destruct (String.eqb_spec k' k) as [->|Hne]; [reflexivity |].
  cbn [fmap list_fmap fst orb].
  rewrite IH. by destruct (existsb _ _).
Qed.

(** The claim C3 as written fails: after [select("Car", "car")] and
    [select("Property", "prop")] the query that [build()] returns does not
    end with [RETURN car,prop]. *)
Lemma default_return_not_bare_comma :
  exists r,
    scenario (select "Car" (Some "car") undefined ;;
              select "Property" (Some "prop") undefined ;;
              build) = Normal r
    /\ Str.endsWith (Built.query r) "RETURN car,prop" = false.
Proof. eexists. split; [reflexivity | vm_compute; reflexivity]. Qed.

(** C3, amended: when no custom return clause has been set, the query that
    [build()] returns is the committed clauses followed by the clause
    [RETURN] and every registered alias, joined by a comma and a space, in
    registration order (a new alias is registered behind the others, a
    registered one keeps its place); after [select("Car", "car")] and
    [select("Property", "prop")] the query ends with [RETURN car, prop]. *)
Theorem build_default_return :
  (forall (V : Type) (this : Builder V),
      return_ this = "" ->
      exists head,
        fst (build this)
        = Normal {| Built.query := head +:+ defaultReturn this;
                    Built.params := params this |}
        /\ head +:+ defaultReturn this
           = Str.join " " (query this ++ [defaultReturn this]))
  /\ (forall (A : Type) (k : string) (v : A) (m : JsMap.Map A),
         JsMap.keys (JsMap.set k v m)
         = if JsMap.has k m then JsMap.keys m else JsMap.keys m ++ [k])
  /\ scenario (select "Car" (Some "car") undefined ;;
               select "Property" (Some "prop") undefined ;;
               build)
     = Normal {| Built.query :=
                   "MATCH (car:Car) MATCH (prop:Property) RETURN car, prop";
                 Built.params := ∅ |}.
Proof.
  split; [| split; [apply @JsMap_keys_set | vm_compute; reflexivity]].
  intros V this Hret.
  exists (match query this with
          | [] => ""
          | _ => Str.join " " (query this) +:+ " "
          end).
  unfold build, bind, get, ret. simpl. rewrite Hret. simpl.
  fold (defaultReturn this). rewrite join_snoc.
  destruct (query this); simpl; [done |].
  by rewrite !str_app_assoc.
Qed.

Lemma carAndProp_reached :
  (select "Car" (Some "car") undefined ;;
   select "Property" (Some "prop") undefined) newBuilder
  = (Normal tt, carAndProp).
Proof. vm_compute. reflexivity. Qed.

Lemma build_default_return_witness :
  return_ carAndProp = ""
  /\ exists head,
       fst (build carAndProp)
       = Normal {| Built.query := head +:+ "RETURN car, prop";
                   Built.params := ∅ |}
       /\ head +:+ "RETURN car, prop"
          = Str.join " " (query carAndProp ++ ["RETURN car, prop"]).
Proof.
  split; [reflexivity |].
  apply (proj1 build_default_return Z carAndProp). reflexivity.
Defined.

(** ** The identifier generator *)

(** C2: the generator is documented to return a unique alias, one that is
    not registered when it is returned.  It does not: with [car] and
    [car_2] registered, a request for [car] finds two registered aliases
    that start with [car] and returns [car_2], which is registered; a
    third [select] with the alias [car] then matches [car_2] once more. *)
Theorem generateNodeVar_returns_registered_alias :
  scenario (select "Car" (Some "car") undefined ;;
            select "Car" (Some "car_2") undefined ;;
            let* nodeVar := generateNodeVar (Some "car") in
            let* this := get in
            ret (nodeVar, JsMap.keys (nodes this),
                 JsMap.has nodeVar (nodes this)))
  = Normal ("car_2", ["car"; "car_2"], true)
  /\ scenario (select "Car" (Some "car") undefined ;;
               select "Car" (Some "car_2") undefined ;;
               select "Car" (Some "car") undefined ;;
               build)
     = Normal {| Built.query :=
                   "MATCH (car:Car) MATCH (car_2:Car) MATCH (car_2:Car) "
                   +:+ "RETURN car, car_2";
                 Built.params := ∅ |}.
Proof. split; vm_compute; reflexivity. Qed.

(** ** The property serializer *)

Section Serializer.
Context {V : Type}.
Implicit Types (record : Obj.props V) (params : gmap string V).






Lemma registered_size nodeVar record params :
  size (fold_left (fun p e => <[paramKey nodeVar e.1 := e.2]> p) record params)
  <= length record + size params.
Proof.
  revert params.
  induction record as [|[key value] record IH]; intros params; [simpl; lia |].
  cbn [fold_left length fst snd]. etrans; [apply IH |].
  rewrite map_size_insert. destruct (params !! _); simpl; lia.
Qed.



End Serializer.


(** For the alias [_] the property [proto__] has the parameter name
    [__proto__]: it is rendered in the token and nothing is registered. *)
Lemma proto_parameter_is_not_registered :
  generatePropertySelectors "_" (object [("proto__", 1%Z)])
  = Normal (" {proto__: $__proto__}", ∅).
Proof. vm_compute. reflexivity. Qed.



(** ** Running the methods *)

Section Frames.
Context {V : Type}.
Implicit Types this : Builder V.

Lemma bind_Normal {A B} (m : M V A) (k : A -> M V B) this a this1 :
  m this = (Normal a, this1) -> bind m k this = k a this1.
Proof. intros H. unfold bind. by rewrite H. Qed.


(** An automatically generated alias and the counters it leaves. *)
Lemma generateNodeVar_auto this :
  generateNodeVar None this
  = let nodeVar :=
      lastNodeVar this +:+ nodeVarIndex_at (lastNodeVarIndex this) in
    (Normal (if JsMap.has nodeVar (nodes this)
             then nodeVar +:+ "_"
                  +:+ pretty (length (similarNodes nodeVar this))
             else nodeVar),
     if 25 <? S (lastNodeVarIndex this)
     then set_lastNodeVar (lastNodeVar this +:+ "a")
            (set_lastNodeVarIndex 0 this)
     else set_lastNodeVarIndex (S (lastNodeVarIndex this)) this).
Proof.
  unfold generateNodeVar, bind, get, modify, ret. cbn -[Nat.ltb].
  unfold JsMap.has, JsMap.keys, similarNodes.
  destruct (25 <? S (lastNodeVarIndex this)); cbn;
    by destruct (existsb _ _).
Qed.

(** The generator always returns, and assigns to its counters only. *)
Lemma generateNodeVar_frame variable this :
  exists nodeVar this',
    generateNodeVar variable this = (Normal nodeVar, this')
    /\ nodes this' = nodes this /\ params this' = params this
    /\ query this' = query this /\ return_ this' = return_ this.
Proof.
  destruct variable as [s|]; [destruct (Str.truthy s) eqn:Hs |].
  - unfold generateNodeVar, bind, get, ret. cbn -[Nat.ltb].
    rewrite Hs. cbn.
    destruct (JsMap.has _ _); by eexists _, _.
  - unfold generateNodeVar, bind, get, modify, ret. cbn -[Nat.ltb].
    rewrite Hs. cbn -[Nat.ltb].
    destruct (25 <? S (lastNodeVarIndex this)); cbn;
      destruct (existsb _ _); by eexists _, _.
  - rewrite generateNodeVar_auto. cbn -[Nat.ltb].
    destruct (25 <? S (lastNodeVarIndex this)); by eexists _, _.
Qed.


(** The serializer returns on an object. *)
Lemma generatePropertySelectors_returns nodeVar (record : Obj.props V) :
  exists token parameters,
    generatePropertySelectors nodeVar (object record)
    = Normal (token, parameters).
Proof.
  unfold generatePropertySelectors.
  destruct (_ =? 0); [by eexists _, _ |].
  destruct (fold_left _ _ _). by eexists _, _.
Qed.





End Frames.

(** ** Relationships without a pattern *)





(** ** The identifier that a relationship without a pattern leaves unused *)






(** ** Totality on the documented shapes *)

Section Totality.
Context {V : Type}.
Implicit Types this : Builder V.





End Totality.



(** The shapes matter: [null] in the place of a property mapping makes
    [Object.keys] throw, after the alias has been registered. *)
Lemma select_null_filter_throws :
  perform (CallSelect "Car" (Some "car") null) (newBuilder (V:=Z))
  = (Throw TypeError,
     set_nodes [("car", {| Node.nodeVar := "car"; Node.label := "Car" |})]
       newBuilder).
Proof. reflexivity. Qed.

(** ** Automatically generated aliases *)

Lemma nodeVarIndex_NoDup : NoDup nodeVarIndex.
Proof. refine (bool_decide_unpack _ _). vm_compute. exact I. Qed.

Lemma nodeVarIndex_at_lookup (i : nat) :
  i < 26 -> nodeVarIndex !! i = Some (nodeVarIndex_at i).
Proof.
  intros Hi. unfold nodeVarIndex_at.
  destruct (lookup_lt_is_Some_2 nodeVarIndex i) as [x ->]; [exact Hi | done].
Qed.

Lemma nodeVarIndex_at_length (i : nat) :
  i < 26 -> String.length (nodeVarIndex_at i) = 1.
Proof.
  intros Hi%nodeVarIndex_at_lookup%list_elem_of_lookup_2.
  revert Hi. generalize (nodeVarIndex_at i). intros x Hx.
  unfold nodeVarIndex in Hx.
  repeat (apply elem_of_cons in Hx as [->|Hx]; [reflexivity |]).
  by apply elem_of_nil in Hx.
Qed.

Lemma nodeVarIndex_at_inj (i j : nat) :
  i < 26 -> j < 26 -> nodeVarIndex_at i = nodeVarIndex_at j -> i = j.
Proof.
  intros Hi%nodeVarIndex_at_lookup Hj%nodeVarIndex_at_lookup Heq.
  rewrite Heq in Hi. exact (NoDup_lookup _ _ _ _ nodeVarIndex_NoDup Hi Hj).
Qed.

Lemma JsMap_has_false {A} (k : string) (m : JsMap.Map A) :
  k ∉ JsMap.keys m -> JsMap.has k m = false.
Proof.
  intros Hk. unfold JsMap.has. apply not_true_is_false.
  intros (x & Hx & ->%String.eqb_eq)%existsb_exists.
  by apply Hk, list_elem_of_In.
Qed.

(** The first aliases are [a] to [z], then [aa], [ab], ... *)
Lemma autoAliases_first :
  scenario (autoAliases (replicate 28 true))
  = Normal ["a"; "b"; "c"; "d"; "e"; "f"; "g"; "h"; "i"; "j"; "k"; "l"; "m";
            "n"; "o"; "p"; "q"; "r"; "s"; "t"; "u"; "v"; "w"; "x"; "y"; "z";
            "aa"; "ab"].
Proof. vm_compute. reflexivity. Qed.

Section Generated.
Context {V : Type}.
Implicit Types this : Builder V.

Lemma Handed_fresh this seen :
  Handed this seen ->
  lastNodeVar this +:+ nodeVarIndex_at (lastNodeVarIndex this) ∉ seen.
Proof.
  intros (Hidx & _ & Hseen) Hin.
  apply Hseen in Hin as [Hshort|(j & Hj & Heq)].
  - rewrite str_app_length, nodeVarIndex_at_length in Hshort by done. lia.
  - apply String.app_inj, nodeVarIndex_at_inj in Heq; lia.
Qed.

Lemma autoAlias_step register this seen :
  Handed this seen ->
  exists nodeVar this',
    autoAlias register this = (Normal nodeVar, this')
    /\ (nodeVar ∉ seen) /\ Handed this' (nodeVar :: seen).
Proof.
  intros Hhanded. pose proof (Handed_fresh _ _ Hhanded) as Hfresh.
  destruct Hhanded as (Hidx & Hkeys & Hseen).
  set (nodeVar := lastNodeVar this +:+ nodeVarIndex_at (lastNodeVarIndex this))
    in *.
  assert (JsMap.has nodeVar (nodes this) = false) as Hhas
    by (apply JsMap_has_false; intros H; apply Hfresh, Hkeys, H).
  set (this1 := if 25 <? S (lastNodeVarIndex this)
                then set_lastNodeVar (lastNodeVar this +:+ "a")
                       (set_lastNodeVarIndex 0 this)
                else set_lastNodeVarIndex (S (lastNodeVarIndex this)) this).
  set (this' := if register
                then set_nodes
                       (JsMap.set nodeVar
                          {| Node.nodeVar := nodeVar; Node.label := "" |}
                          (nodes this1)) this1
                else this1).
  exists nodeVar, this'. split.
  { unfold autoAlias.
    rewrite (bind_Normal _ _ _ _ _ (generateNodeVar_auto this)).
    cbv zeta. fold nodeVar this1. rewrite Hhas.
    unfold bind, modify, ret, this'. by destruct register. }
  split; [exact Hfresh |].
  assert (nodes this1 = nodes this) as Hnodes1
    by (unfold this1; by destruct (25 <? _)).
  assert (lastNodeVar this' = lastNodeVar this1
          /\ lastNodeVarIndex this' = lastNodeVarIndex this1) as [Hbase Hoffset]
    by (unfold this'; by destruct register).
  unfold Handed. rewrite Hbase, Hoffset. split; [| split].
  - unfold this1. destruct (25 <? _) eqn:Hwrap; cbn; [lia |].
    apply Nat.ltb_ge in Hwrap. lia.
  - intros x. unfold this'. destruct register; cbn [nodes set_nodes];
      rewrite Hnodes1.
    + rewrite JsMap_keys_set, Hhas, elem_of_app.
      intros [H%Hkeys|H%list_elem_of_singleton]; apply elem_of_cons; auto.
    + rewrite elem_of_cons. auto.
  - intros x Hx.
    assert (String.length x <= String.length (lastNodeVar this)
            \/ exists j, j < S (lastNodeVarIndex this)
                         /\ x = lastNodeVar this +:+ nodeVarIndex_at j)
      as [Hshort|(j & Hj & ->)].
    { apply elem_of_cons in Hx as [->|Hx].
      - right. exists (lastNodeVarIndex this). auto.
      - apply Hseen in Hx as [H|(j & Hj & ->)]; [by left |].
        right. exists j. split; [lia | done]. }
    + left. unfold this1. destruct (25 <? _); cbn; [| done].
      rewrite str_app_length. lia.
    + unfold this1. destruct (25 <? _) eqn:Hwrap; cbn.
      * left. apply Nat.ltb_lt in Hwrap.
        rewrite !str_app_length, nodeVarIndex_at_length by lia. cbn. lia.
      * right. by exists j.
Qed.

Lemma autoAliases_distinct registers :
  forall this seen,
    Handed this seen ->
    exists nodeVars this',
      autoAliases registers this = (Normal nodeVars, this')
      /\ length nodeVars = length registers
      /\ NoDup nodeVars
      /\ (forall x, x ∈ nodeVars -> x ∉ seen).
Proof.
  induction registers as [|register registers IH]; intros this seen Hhanded.
  - exists [], this. repeat split; [constructor | by intros x ?%elem_of_nil].
  - destruct (autoAlias_step register this seen Hhanded)
      as (nodeVar & this1 & Hstep & Hfresh & Hhanded1).
    destruct (IH this1 (nodeVar :: seen) Hhanded1)
      as (nodeVars & this' & Hrest & Hlen & Hnd & Hout).
    exists (nodeVar :: nodeVars), this'.
    cbn [autoAliases]. rewrite (bind_Normal _ _ _ _ _ Hstep).
    rewrite (bind_Normal _ _ _ _ _ Hrest).
    split; [reflexivity |]. split; [cbn; by rewrite Hlen |].
    split.
    + apply NoDup_cons. split; [| done].
      intros Hin%Hout. apply Hin, elem_of_cons. auto.
    + intros x [->|Hin%Hout]%elem_of_cons; [done |].
      intros Hx. apply Hin, elem_of_cons. auto.
Qed.

End Generated.

(** C6: on a builder on which every alias is generated automatically, the
    aliases returned by any number of consecutive generator calls, 702 in
    particular, are pairwise distinct, whether the callers register them
    or not. *)
Theorem auto_aliases_pairwise_distinct (V : Type) (registers : list bool) :
  exists nodeVars this',
    autoAliases registers (newBuilder (V:=V)) = (Normal nodeVars, this')
    /\ length nodeVars = length registers
    /\ NoDup nodeVars.
Proof.
  destruct (autoAliases_distinct registers (newBuilder (V:=V)) [])
    as (nodeVars & this' & Hrun & Hlen & Hnd & _).
  - split; [cbn; lia |]. split; intros x Hx; by apply elem_of_nil in Hx.
  - by exists nodeVars, this'.
Qed.

(** * Further properties of the code *)

(** ** Sanitized keys and parameter names *)

Lemma str_app_nil_r (s : string) : s +:+ "" = s.
Proof.
  induction s as [|c s IH]; [reflexivity |]. by rewrite str_app_cons, IH.
Qed.

Lemma alnum_underscore : Str.alnum "_" = false.
Proof. reflexivity. Qed.

(** X1: sanitizing a property name keeps its length, leaves only letters,
    digits and underscores, changes nothing when applied again, and is the
    identity on a name made of letters and digits. *)
Theorem sanitize_spec (key : string) :
  String.length (Str.sanitize key) = String.length key
  /\ Forall (fun c => Str.alnum c = true \/ c = "_"%char)
       (String.list_ascii_of_string (Str.sanitize key))
  /\ Str.sanitize (Str.sanitize key) = Str.sanitize key
  /\ (forallb Str.alnum (String.list_ascii_of_string key) = true ->
      Str.sanitize key = key).
Proof.
  induction key as [|c key (IHlen & IHchars & IHidem & IHid)].
  - repeat split; constructor.
  - cbn [Str.sanitize String.length String.list_ascii_of_string forallb].
    split; [by rewrite IHlen |]. split; [| split].
    + constructor; [| exact IHchars].
      destruct (Str.alnum c) eqn:Hc; auto.
    + destruct (Str.alnum c) eqn:Hc.
      * by rewrite Hc, IHidem.
      * by rewrite alnum_underscore, IHidem.
    + intros [Hc Hkey]%andb_prop. by rewrite Hc, (IHid Hkey).
Qed.

Lemma sanitize_spec_witness :
  forallb Str.alnum (String.list_ascii_of_string "createdAt") = true
  /\ Str.sanitize "createdAt" = "createdAt".
Proof.
  split; [reflexivity |].
  apply (proj2 (proj2 (proj2 (sanitize_spec "createdAt")))). reflexivity.
Defined.

Lemma underscore_split (a1 a2 r1 r2 : string) :
  underscoreFree a1 = true ->
  underscoreFree a2 = true ->
  a1 +:+ "_" +:+ r1 = a2 +:+ "_" +:+ r2 ->
  a1 = a2 /\ r1 = r2.
Proof.
  revert a2. induction a1 as [|c a1 IH]; intros [|d a2] H1 H2 Heq.
  - by injection Heq.
  - rewrite str_app_cons in Heq. injection Heq as <- _.
    cbn in H2. discriminate.
  - rewrite str_app_cons in Heq. injection Heq as -> _.
    cbn in H1. discriminate.
  - rewrite !str_app_cons in Heq. injection Heq as -> Heq.
    cbn [underscoreFree String.list_ascii_of_string forallb] in H1, H2.
    apply andb_prop in H1 as [_ H1]. apply andb_prop in H2 as [_ H2].
    destruct (IH a2 H1 H2 Heq) as [-> ->]. done.
Qed.

(** X2: the alias separates the parameter names of two entities as long
    as neither alias has an underscore: equal parameter names then come from
    the same alias and the same sanitized property name. *)
Theorem paramKey_namespaced (alias1 alias2 key1 key2 : string) :
  underscoreFree alias1 = true ->
  underscoreFree alias2 = true ->
  paramKey alias1 key1 = paramKey alias2 key2 ->
  alias1 = alias2 /\ Str.sanitize key1 = Str.sanitize key2.
Proof. apply underscore_split. Qed.

Lemma paramKey_namespaced_witness :
  underscoreFree "car" = true
  /\ paramKey "car" "special-key" = paramKey "car" "special_key"
  /\ Str.sanitize "special-key" = Str.sanitize "special_key".
Proof.
  split; [reflexivity |]. split; [reflexivity |].
  apply (paramKey_namespaced "car" "car" "special-key" "special_key");
    reflexivity.
Defined.

(** With an underscore in an alias, as in the aliases that the generator
    suffixes, two entities can share a parameter name. *)
Lemma paramKey_shared_across_aliases :
  paramKey "car" "1_id" = paramKey "car_1" "id" /\ "car" <> "car_1".
Proof. split; [reflexivity | discriminate]. Qed.

(** ** What every public call keeps *)

Section Keeping.
Context {V : Type} (R : Builder V -> Builder V -> Prop).
Hypothesis R_refl : forall this, R this this.
Hypothesis R_trans : forall this1 this2 this3,
    R this1 this2 -> R this2 this3 -> R this1 this3.

Lemma Keeps_ret {A} (a : A) : Keeps R (ret a).
Proof. intros this c this' [= <- <-]. apply R_refl. Qed.

Lemma Keeps_throw {A} (e : Error) : Keeps R (throw (A:=A) e).
Proof. intros this c this' [= <- <-]. apply R_refl. Qed.

Lemma Keeps_get : Keeps R get.
Proof. intros this c this' [= <- <-]. apply R_refl. Qed.

Lemma Keeps_lift {A} (c : Completion A) : Keeps R (lift c).
Proof. intros this c' this' [= <- <-]. apply R_refl. Qed.

Lemma Keeps_modify (f : Builder V -> Builder V) :
  (forall this, R this (f this)) -> Keeps R (modify f).
Proof. intros Hf this c this' [= <- <-]. apply Hf. Qed.

Lemma Keeps_bind {A B} (m : M V A) (k : A -> M V B) :
  Keeps R m -> (forall a, Keeps R (k a)) -> Keeps R (bind m k).
Proof.
  intros Hm Hk this c this'. unfold bind.
  destruct (m this) as [[a|e] this1] eqn:Hrun.
  - intros Hcont. eapply R_trans; [exact (Hm _ _ _ Hrun) |].
    exact (Hk a _ _ _ Hcont).
  - intros [= <- <-]. exact (Hm _ _ _ Hrun).
Qed.

Hypothesis R_generate : forall variable, Keeps R (generateNodeVar variable).
Hypothesis R_nodes : forall this k e,
    R this (set_nodes (JsMap.set k e (nodes this)) this).
Hypothesis R_params : forall this parameters,
    R this (set_params (Obj.spread (params this) parameters) this).
Hypothesis R_query : forall this clause,
    R this (set_query (query this ++ [clause]) this).
Hypothesis R_return : forall this clause, R this (set_return clause this).

Ltac keeps :=
  repeat first
    [ apply Keeps_ret | apply Keeps_throw | apply Keeps_get
    | apply Keeps_lift | apply R_generate
    | apply Keeps_modify; intros ?;
      first [ apply R_nodes | apply R_params | apply R_query
            | apply R_return ]
    | apply Keeps_bind; [| intros ?]
    | match goal with
      | |- Keeps _ (if ?b then _ else _) => destruct b
      | |- Keeps _ (match ?x with _ => _ end) => destruct x
      end ].

Lemma Keeps_buildNodeReference nodeVar label properties :
  Keeps R (buildNodeReference nodeVar label properties).
Proof. unfold buildNodeReference. keeps. Qed.

Lemma Keeps_getNodeVarOrGenerate nodeVar :
  Keeps R (getNodeVarOrGenerate nodeVar).
Proof. unfold getNodeVarOrGenerate. keeps. Qed.

Lemma Keeps_buildRelationshipReference source target direction attributes :
  Keeps R (buildRelationshipReference source target direction attributes).
Proof.
  unfold buildRelationshipReference.
  apply Keeps_bind; [apply Keeps_getNodeVarOrGenerate | intros sourceVar].
  apply Keeps_bind; [apply Keeps_buildNodeReference | intros sourceNode].
  apply Keeps_bind; [apply Keeps_getNodeVarOrGenerate | intros targetVar].
  apply Keeps_bind; [apply Keeps_buildNodeReference | intros targetNode].
  apply Keeps_bind; [keeps | intros a].
  apply Keeps_bind; [keeps | intros relationshipVar].
  apply Keeps_bind; [| intros relationshipPattern; keeps].
  destruct (_ || _); [| keeps].
  apply Keeps_bind; [apply Keeps_buildNodeReference | intros ?; keeps].
Qed.

Lemma Keeps_select label nodeVar filter : Keeps R (select label nodeVar filter).
Proof.
  unfold select.
  apply Keeps_bind; [keeps | intros node].
  apply Keeps_bind; [keeps | intros _].
  apply Keeps_bind; [apply Keeps_buildNodeReference | intros ref; keeps].
Qed.

Lemma Keeps_createNode label properties variable :
  Keeps R (createNode label properties variable).
Proof.
  unfold createNode.
  apply Keeps_bind; [keeps | intros node].
  apply Keeps_bind; [keeps | intros _].
  apply Keeps_bind; [apply Keeps_buildNodeReference | intros ref; keeps].
Qed.

Lemma Keeps_join sourceNode targetNode direction attributes :
  Keeps R (join sourceNode targetNode direction attributes).
Proof.
  unfold join.
  apply Keeps_bind; [apply Keeps_buildRelationshipReference | intros ?; keeps].
Qed.

Lemma Keeps_perform (c : Call) : Keeps R (perform c).
Proof.
  destruct c; cbn [perform].
  - apply Keeps_bind; [apply Keeps_select | intros ?; keeps].
  - apply Keeps_bind; [apply Keeps_createNode | intros ?; keeps].
  - apply Keeps_bind; [apply Keeps_join | intros ?; keeps].
  - apply Keeps_bind; [apply Keeps_buildNodeReference | intros ?; keeps].
  - apply Keeps_bind;
      [apply Keeps_buildRelationshipReference | intros ?; keeps].
  - unfold customReturn. keeps.
  - unfold build. keeps.
Qed.

Lemma Keeps_performAll (cs : list Call) (this : Builder V) :
  R this (performAll cs this).
Proof.
  revert this. induction cs as [|c cs IH]; intros this; [apply R_refl |].
  cbn [performAll]. eapply R_trans; [| apply IH].
  apply (Keeps_perform c this (perform c this).1). by destruct (perform c this).
Qed.

End Keeping.

Section Kept.
Context {V : Type}.
Implicit Types this : Builder V.

(** The builder that the generator leaves. *)
Lemma generateNodeVar_leaves variable this :
  (generateNodeVar variable this).2
  = if Str.truthy_opt variable then this
    else if 25 <? S (lastNodeVarIndex this)
         then set_lastNodeVar (lastNodeVar this +:+ "a")
                (set_lastNodeVarIndex 0 this)
         else set_lastNodeVarIndex (S (lastNodeVarIndex this)) this.
Proof.
  unfold generateNodeVar, bind, get, modify, ret.
  destruct (Str.truthy_opt variable); cbn -[Nat.ltb].
  - by destruct (JsMap.has _ _).
  - destruct (25 <? S (lastNodeVarIndex this)); cbn;
      by destruct (existsb _ _).
Qed.

Lemma generateNodeVar_counters variable :
  Keeps (fun this this' => CountersInRange this -> CountersInRange this')
    (generateNodeVar variable).
Proof.
  intros this c this' Hrun (Hidx & q & Hbase).
  assert (this' = (generateNodeVar variable this).2) as ->
    by (by rewrite Hrun).
  rewrite generateNodeVar_leaves.
  destruct (Str.truthy_opt variable); [by split; [| exists q] |].
  destruct (25 <? S (lastNodeVarIndex this)) eqn:Hwrap.
  - split; [cbn; lia |]. exists (S q). cbn. by rewrite Hbase.
  - apply Nat.ltb_ge in Hwrap. split; [cbn; lia |]. by exists q.
Qed.

Lemma generateNodeVar_grows variable :
  Keeps (V:=V) Grows (generateNodeVar variable).
Proof.
  intros this c this' Hrun.
  destruct (generateNodeVar_frame variable this)
    as (nodeVar & this'' & Hframe & Hnodes & Hparams & Hquery & _).
  rewrite Hframe in Hrun. injection Hrun as _ <-.
  unfold Grows. by rewrite Hnodes, Hparams, Hquery.
Qed.

Lemma Grows_refl this : Grows this this.
Proof. by unfold Grows. Qed.

Lemma Grows_trans this1 this2 this3 :
  Grows this1 this2 -> Grows this2 this3 -> Grows this1 this3.
Proof.
  intros (Hq1 & Hk1 & Hp1) (Hq2 & Hk2 & Hp2).
  split; [by etrans | split; by etrans].
Qed.

End Kept.

(** X3: on a builder created by [new], whatever public calls are made with
    whatever arguments, and whether they return or throw, the offset of the
    generator stays inside the alphabet, so that the generator reads a
    letter, and the base string is made of the letter [a]. *)
Theorem counters_stay_in_range (V : Type) (cs : list (Call (V:=V))) :
  CountersInRange (performAll cs newBuilder)
  /\ nodeVarIndex !! lastNodeVarIndex (performAll cs newBuilder)
     = Some (nodeVarIndex_at (lastNodeVarIndex (performAll cs newBuilder))).
Proof.
  assert (CountersInRange (performAll cs (newBuilder (V:=V)))) as Hrange.
  { apply (Keeps_performAll
             (fun this this' => CountersInRange this -> CountersInRange this'));
      try (intros; assumption).
    - intros ? ? ? H12 H23 H1. exact (H23 (H12 H1)).
    - apply generateNodeVar_counters.
    - split; [cbn; lia | by exists 0]. }
  split; [exact Hrange |].
  apply nodeVarIndex_at_lookup, Hrange.
Qed.

(** X4: no public call, returning or throwing, loses what the builder has
    accumulated: after any sequence of calls the committed clauses and the
    registered aliases are still there, in the same order and in front of
    what was added, and every parameter name that was bound is still
    bound. *)
Theorem calls_only_accumulate
    (V : Type) (cs : list (Call (V:=V))) (this : Builder V) :
  Grows this (performAll cs this).
Proof.
  apply (Keeps_performAll Grows).
  - apply Grows_refl.
  - apply Grows_trans.
  - apply generateNodeVar_grows.
  - intros this0 k e. split; [done |]. split; [| done].
    cbn [nodes set_nodes]. rewrite JsMap_keys_set.
    destruct (JsMap.has k (nodes this0)); [done | by exists [k]].
  - intros this0 parameters. split; [done |]. split; [done |].
    cbn [params set_params]. unfold Obj.spread.
    rewrite dom_union_L. set_solver.
  - intros this0 clause. split; [by exists [clause] | done].
  - intros this0 clause. by unfold Grows.
Qed.

(** ** The sequence of generated aliases *)

Lemma nthAlias_split (q r : nat) :
  r < 26 -> nthAlias (26 * q + r) = baseString q +:+ nodeVarIndex_at r.
Proof.
  intros Hr. unfold nthAlias.
  by rewrite <- (Nat.div_unique (26 * q + r) 26 q r),
             <- (Nat.mod_unique (26 * q + r) 26 q r).
Qed.

Lemma baseString_length (q : nat) : String.length (baseString q) = q.
Proof.
  induction q as [|q IH]; [reflexivity |].
  cbn [baseString]. rewrite str_app_length, IH. cbn. lia.
Qed.

Lemma underscoreFree_app (s1 s2 : string) :
  underscoreFree (s1 +:+ s2) = underscoreFree s1 && underscoreFree s2.
Proof.
  induction s1 as [|c s1 IH]; [reflexivity |].
  rewrite str_app_cons. unfold underscoreFree in *.
  cbn [String.list_ascii_of_string forallb]. by rewrite IH, andb_assoc.
Qed.

Lemma baseString_underscoreFree (q : nat) : underscoreFree (baseString q) = true.
Proof.
  induction q as [|q IH]; [reflexivity |].
  cbn [baseString]. by rewrite underscoreFree_app, IH.
Qed.

Lemma nodeVarIndex_at_underscoreFree (i : nat) :
  i < 26 -> underscoreFree (nodeVarIndex_at i) = true.
Proof.
  intros Hi%nodeVarIndex_at_lookup%list_elem_of_lookup_2.
  revert Hi. generalize (nodeVarIndex_at i). intros x Hx.
  unfold nodeVarIndex in Hx.
  repeat (apply elem_of_cons in Hx as [->|Hx]; [reflexivity |]).
  by apply elem_of_nil in Hx.
Qed.

Section Sequence.
Context {V : Type}.
Implicit Types this : Builder V.

Lemma autoAlias_value register this seen :
  Handed this seen ->
  exists this',
    autoAlias register this
    = (Normal (lastNodeVar this +:+ nodeVarIndex_at (lastNodeVarIndex this)),
       this')
    /\ Handed this'
         ((lastNodeVar this +:+ nodeVarIndex_at (lastNodeVarIndex this))
          :: seen)
    /\ lastNodeVar this'
       = (if 25 <? S (lastNodeVarIndex this)
          then lastNodeVar this +:+ "a" else lastNodeVar this)
    /\ lastNodeVarIndex this'
       = (if 25 <? S (lastNodeVarIndex this)
          then 0 else S (lastNodeVarIndex this)).
Proof.
  intros Hhanded.
  destruct (autoAlias_step register this seen Hhanded)
    as (nodeVar & this' & Hrun & _ & Hhanded').
  assert (JsMap.has
            (lastNodeVar this +:+ nodeVarIndex_at (lastNodeVarIndex this))
            (nodes this) = false) as Hhas.
  { apply JsMap_has_false. intros Hin.
    apply (Handed_fresh _ _ Hhanded). by apply Hhanded. }
  pose proof Hrun as Hcalc. unfold autoAlias in Hcalc.
  rewrite (bind_Normal _ _ _ _ _ (generateNodeVar_auto this)) in Hcalc.
  cbv zeta in Hcalc. rewrite Hhas in Hcalc.
  unfold bind, modify, ret in Hcalc.
  assert (nodeVar
          = lastNodeVar this +:+ nodeVarIndex_at (lastNodeVarIndex this)
          /\ lastNodeVar this'
             = (if 25 <? S (lastNodeVarIndex this)
                then lastNodeVar this +:+ "a" else lastNodeVar this)
          /\ lastNodeVarIndex this'
             = (if 25 <? S (lastNodeVarIndex this)
                then 0 else S (lastNodeVarIndex this)))
    as (-> & Hbase & Hoffset).
  { destruct register, (25 <? S (lastNodeVarIndex this));
      injection Hcalc as <- <-; done. }
  by exists this'.
Qed.

Lemma autoAliases_formula registers :
  forall q r this seen,
    Handed this seen ->
    lastNodeVar this = baseString q ->
    lastNodeVarIndex this = r ->
    exists this',
      autoAliases registers this
      = (Normal (nthAlias <$> seq (26 * q + r) (length registers)), this').
Proof.
  induction registers as [|register registers IH];
    intros q r this seen Hhanded Hbase Hoffset; [by eexists |].
  destruct (autoAlias_value register this seen Hhanded)
    as (this1 & Hrun & Hhanded1 & Hbase1 & Hoffset1).
  pose proof (proj1 Hhanded) as Hr. rewrite Hoffset in Hr.
  rewrite Hbase, Hoffset in Hrun. rewrite Hbase, Hoffset in Hbase1.
  rewrite Hoffset in Hoffset1.
  rewrite <- nthAlias_split in Hrun by done.
  cbn [autoAliases length seq fmap list_fmap].
  rewrite (bind_Normal _ _ _ _ _ Hrun).
  destruct (25 <? S r) eqn:Hwrap.
  - apply Nat.ltb_lt in Hwrap.
    destruct (IH (S q) 0 this1 _ Hhanded1 Hbase1 Hoffset1) as (this' & Hrest).
    replace (26 * S q + 0) with (S (26 * q + r)) in Hrest by lia.
    rewrite (bind_Normal _ _ _ _ _ Hrest). by eexists.
  - apply Nat.ltb_ge in Hwrap.
    destruct (IH q (S r) this1 _ Hhanded1 Hbase1 Hoffset1) as (this' & Hrest).
    replace (26 * q + S r) with (S (26 * q + r)) in Hrest by lia.
    rewrite (bind_Normal _ _ _ _ _ Hrest). by eexists.
Qed.

End Sequence.

(** X5: on a builder on which every alias is generated automatically, the
    call number [k] of the generator (from 0) returns [k / 26] letters [a]
    followed by the letter number [k mod 26]: [a] to [z], [aa] to [az],
    [aaa] to [aaz], and so on.  That alias has [k / 26 + 1] characters and
    no underscore. *)
Theorem auto_alias_sequence (V : Type) (registers : list bool) :
  (exists this',
      autoAliases registers (newBuilder (V:=V))
      = (Normal (nthAlias <$> seq 0 (length registers)), this'))
  /\ (forall k,
         String.length (nthAlias k) = k / 26 + 1
         /\ underscoreFree (nthAlias k) = true).
Proof.
  split.
  - apply (autoAliases_formula registers 0 0 newBuilder []); [| done | done].
    split; [cbn; lia |]. split; intros x Hx; by apply elem_of_nil in Hx.
  - intros k. pose proof (Nat.mod_upper_bound k 26) as Hmod.
    unfold nthAlias. split.
    + rewrite str_app_length, baseString_length, nodeVarIndex_at_length; lia.
    + rewrite underscoreFree_app, baseString_underscoreFree,
        nodeVarIndex_at_underscoreFree; [done | lia].
Qed.

(** The aliases number 26, 52 and 53 are [aa], [aaa] and [aab]. *)
Lemma nthAlias_examples :
  nthAlias 26 = "aa" /\ nthAlias 52 = "aaa" /\ nthAlias 53 = "aab".
Proof. repeat split. Qed.

(** ** The same alias requested again and again *)

Lemma prefix_app (s1 s2 : string) : String.prefix s1 (s1 +:+ s2) = true.
Proof.
  induction s1 as [|c s1 IH]; [by destruct s2 |].
  rewrite str_app_cons. cbn [String.prefix].
  by destruct (ascii_dec c c).
Qed.

Lemma startsWith_suffixed (alias : string) (i : nat) :
  Str.startsWith (suffixed alias i) alias = true.
Proof.
  unfold Str.startsWith. destruct i as [|i]; cbn [suffixed].
  - rewrite <- (str_app_nil_r alias) at 2. apply prefix_app.
  - apply prefix_app.
Qed.

Lemma suffixed_inj (alias : string) (i j : nat) :
  suffixed alias i = suffixed alias j -> i = j.
Proof.
  assert (forall k, alias <> alias +:+ "_" +:+ pretty (S k)) as Hne.
  { intros k Heq%(f_equal String.length).
    rewrite str_app_length, str_app_cons in Heq. cbn in Heq. lia. }
  destruct i as [|i], j as [|j]; cbn [suffixed]; intros Heq.
  - reflexivity.
  - by apply Hne in Heq.
  - symmetry in Heq. by apply Hne in Heq.
  - apply String.app_inj in Heq. rewrite !str_app_cons in Heq.
    injection Heq as Heq. by apply pretty_nat_inj in Heq.
Qed.

Lemma JsMap_has_true {A} (k : string) (m : JsMap.Map A) :
  k ∈ JsMap.keys m -> JsMap.has k m = true.
Proof.
  intros Hk. unfold JsMap.has. apply existsb_exists.
  exists k. split; [by apply list_elem_of_In | apply String.eqb_refl].
Qed.

Lemma filter_all {A} (P : A -> Prop) `{!forall x, Decision (P x)} (l : list A) :
  (forall x, x ∈ l -> P x) -> filter P l = l.
Proof.
  induction l as [|x l IH]; intros Hall; [reflexivity |].
  rewrite filter_cons_True by (apply Hall, elem_of_cons; auto).
  rewrite IH; [done |]. intros y Hy. apply Hall, elem_of_cons. auto.
Qed.

Lemma filter_none {A} (P : A -> Prop) `{!forall x, Decision (P x)} (l : list A) :
  (forall x, x ∈ l -> ~ P x) -> filter P l = [].
Proof.
  induction l as [|x l IH]; intros Hnone; [reflexivity |].
  rewrite filter_cons_False by (apply Hnone, elem_of_cons; auto).
  apply IH. intros y Hy. apply Hnone, elem_of_cons. auto.
Qed.

Section Repeated.
Context {V : Type}.
Implicit Types this : Builder V.

(** A requested alias is returned as it is, or with the number of
    registered aliases that start with it; the builder is not touched. *)
Lemma generateNodeVar_explicit alias this :
  Str.truthy alias = true ->
  generateNodeVar (Some alias) this
  = (Normal (if JsMap.has alias (nodes this)
             then alias +:+ "_" +:+ pretty (length (similarNodes alias this))
             else alias), this).
Proof.
  intros Halias. unfold generateNodeVar, bind, get, ret.
  cbn [Str.truthy_opt]. rewrite Halias. cbn [negb default from_option id].
  by destruct (JsMap.has alias (nodes this)).
Qed.

Lemma generateNodeVar_suffixed alias this base m :
  Str.truthy alias = true ->
  (forall k, k ∈ base -> Str.startsWith k alias = false) ->
  JsMap.keys (nodes this) = base ++ (suffixed alias <$> seq 0 m) ->
  generateNodeVar (Some alias) this = (Normal (suffixed alias m), this)
  /\ JsMap.has (suffixed alias m) (nodes this) = false.
Proof.
  intros Halias Hbase Hkeys. rewrite generateNodeVar_explicit by done.
  assert (suffixed alias m ∉ JsMap.keys (nodes this)) as Hfresh.
  { rewrite Hkeys, elem_of_app, list_elem_of_fmap.
    intros [Hin%Hbase|(i & Heq%suffixed_inj & Hi%elem_of_seq)]; [| lia].
    by rewrite startsWith_suffixed in Hin. }
  split; [| by apply JsMap_has_false].
  destruct m as [|m].
  - by rewrite (JsMap_has_false alias (nodes this) Hfresh).
  - rewrite JsMap_has_true.
    2:{ rewrite Hkeys, elem_of_app. right. apply list_elem_of_fmap.
        exists 0. split; [done |]. apply elem_of_seq. lia. }
    unfold similarNodes. rewrite Hkeys, filter_app.
    rewrite filter_none, filter_all.
    + by rewrite app_nil_l, length_fmap, length_seq.
    + intros x (i & -> & _)%list_elem_of_fmap. apply startsWith_suffixed.
    + intros x Hx%Hbase. by rewrite Hx.
Qed.

Lemma select_undefined label nodeVar this node this1 :
  generateNodeVar nodeVar this = (Normal node, this1) ->
  select label nodeVar undefined this
  = (Normal tt,
     set_query
       (query this1 ++ ["MATCH (" +:+ nodeReferenceText node label "" +:+ ")"])
       (set_params (Obj.spread (params this1) ∅)
          (set_nodes
             (JsMap.set node {| Node.nodeVar := node; Node.label := label |}
                (nodes this1)) this1))).
Proof.
  intros Hgen. unfold select. by rewrite (bind_Normal _ _ _ _ _ Hgen).
Qed.

Lemma selects_suffixed label alias n :
  forall m this base,
    Str.truthy alias = true ->
    (forall k, k ∈ base -> Str.startsWith k alias = false) ->
    JsMap.keys (nodes this) = base ++ (suffixed alias <$> seq 0 m) ->
    exists this',
      selects label alias n this = (Normal tt, this')
      /\ JsMap.keys (nodes this')
         = base ++ (suffixed alias <$> seq 0 (m + n))
      /\ query this'
         = query this
           ++ ((fun i => "MATCH ("
                         +:+ nodeReferenceText (suffixed alias i) label ""
                         +:+ ")") <$> seq m n).
Proof.
  induction n as [|n IH]; intros m this base Halias Hbase Hkeys.
  - exists this. rewrite Nat.add_0_r, app_nil_r. done.
  - destruct (generateNodeVar_suffixed alias this base m Halias Hbase Hkeys)
      as [Hgen Hfresh].
    pose proof (select_undefined label _ _ _ _ Hgen) as Hsel.
    set (this1 := set_query _ _) in Hsel.
    cbn [selects]. rewrite (bind_Normal _ _ _ _ _ Hsel).
    destruct (IH (S m) this1 base) as (this' & Hrun & Hkeys' & Hquery');
      [exact Halias | exact Hbase | |].
    { unfold this1. cbn [nodes set_query set_params set_nodes].
      rewrite JsMap_keys_set, Hfresh, Hkeys, <- app_assoc.
      by rewrite seq_S, fmap_app. }
    exists this'. split; [exact Hrun |].
    split; [by rewrite Hkeys', Nat.add_succ_r |].
    rewrite Hquery'. unfold this1.
    cbn [query set_query set_params set_nodes seq fmap list_fmap].
    by rewrite <- app_assoc.
Qed.

End Repeated.

(** X6: when no registered alias starts with a given non-empty alias,
    [select] called [n] times in a row with that alias registers [alias],
    [alias_1], ..., [alias_(n-1)], in this order behind the aliases that
    were registered, which are pairwise distinct, and commits one [MATCH]
    clause for each of them. *)
Theorem repeated_alias_is_numbered
    (V : Type) (label alias : string) (n : nat) (this : Builder V) :
  Str.truthy alias = true ->
  (forall k, k ∈ JsMap.keys (nodes this) -> Str.startsWith k alias = false) ->
  exists this',
    selects label alias n this = (Normal tt, this')
    /\ JsMap.keys (nodes this')
       = JsMap.keys (nodes this) ++ (suffixed alias <$> seq 0 n)
    /\ NoDup (suffixed alias <$> seq 0 n)
    /\ query this'
       = query this
         ++ ((fun i => "MATCH ("
                       +:+ nodeReferenceText (suffixed alias i) label ""
                       +:+ ")") <$> seq 0 n).
Proof.
  intros Halias Hbase.
  destruct (selects_suffixed label alias n 0 this (JsMap.keys (nodes this)))
    as (this' & Hrun & Hkeys & Hquery);
    [done | done | by rewrite app_nil_r |].
  exists this'. split; [exact Hrun |]. split; [exact Hkeys |].
  split; [| exact Hquery].
  apply (NoDup_fmap_2_strong _); [| apply NoDup_seq].
  intros i j _ _. apply suffixed_inj.
Qed.

Lemma repeated_alias_is_numbered_witness :
  Str.truthy "car" = true
  /\ exists this',
       selects (V:=Z) "Car" "car" 3 newBuilder = (Normal tt, this')
       /\ JsMap.keys (nodes this') = [] ++ ["car"; "car_1"; "car_2"]
       /\ NoDup ["car"; "car_1"; "car_2"]
       /\ query this'
          = [] ++ ["MATCH (car:Car)"; "MATCH (car_1:Car)";
                   "MATCH (car_2:Car)"].
Proof.
  split; [reflexivity |].
  apply (repeated_alias_is_numbered Z "Car" "car" 3 newBuilder);
    [reflexivity |].
  intros k Hk. by apply elem_of_nil in Hk.
Defined.

(** ** Node references and the parameters they bind *)

Section Binding.
Context {V : Type}.
Implicit Types (this : Builder V) (record : Obj.props V).



End Binding.



(** ** Clauses *)

Lemma JsMap_has_set {A} (k : string) (v : A) (m : JsMap.Map A) :
  JsMap.has k (JsMap.set k v m) = true.
Proof.
  apply JsMap_has_true. rewrite JsMap_keys_set.
  destruct (JsMap.has k m) eqn:Hhas.
  - unfold JsMap.has in Hhas.
    apply existsb_exists in Hhas as (x & Hx & ->%String.eqb_eq).
    by apply list_elem_of_In.
  - apply elem_of_app. right. by apply list_elem_of_singleton.
Qed.

Section Clauses.
Context {V : Type}.
Implicit Types this : Builder V.

Lemma generatePropertySelectors_documented nodeVar
    (properties : js (Obj.props V)) :
  optional plainMapping properties = true ->
  exists token parameters,
    generatePropertySelectors nodeVar (default_param [] properties)
    = Normal (token, parameters).
Proof.
  destruct properties as [| |record]; [| discriminate |]; intros _.
  - by eexists _, _.
  - apply generatePropertySelectors_returns.
Qed.

Lemma buildNodeReference_documented nodeVar label properties this
    token parameters :
  generatePropertySelectors nodeVar (default_param [] properties)
  = Normal (token, parameters) ->
  buildNodeReference nodeVar label properties this
  = (Normal (nodeReferenceText nodeVar (default "" label) token),
     set_params (Obj.spread (params this) parameters) this).
Proof.
  intros Hsel. unfold buildNodeReference, bind, lift, modify, ret.
  by rewrite Hsel.
Qed.

End Clauses.

Lemma select_result
    (V : Type) (label : string) (nodeVar : option string)
    (filter : js (Obj.props V)) (this : Builder V) :
  optional plainMapping filter = true ->
  exists node this1 token parameters this',
    generateNodeVar nodeVar this = (Normal node, this1)
    /\ generatePropertySelectors node (default_param [] filter)
       = Normal (token, parameters)
    /\ select label nodeVar filter this = (Normal tt, this')
    /\ query this'
       = query this ++ ["MATCH (" +:+ nodeReferenceText node label token
                        +:+ ")"]
    /\ JsMap.has node (nodes this') = true
    /\ JsMap.keys (nodes this')
       = (if JsMap.has node (nodes this) then JsMap.keys (nodes this)
          else JsMap.keys (nodes this) ++ [node])
    /\ params this' = Obj.spread (params this) parameters
    /\ return_ this' = return_ this.
Proof.
  intros Hshape.
  destruct (generateNodeVar_frame nodeVar this)
    as (node & this1 & Hgen & Hnodes & Hparams & Hquery & Hreturn).
  destruct (generatePropertySelectors_documented node filter Hshape)
    as (token & parameters & Hsel).
  eexists node, this1, token, parameters, _.
  split; [exact Hgen |]. split; [exact Hsel |]. split.
  { unfold select. rewrite (bind_Normal _ _ _ _ _ Hgen).
    unfold bind at 1. unfold modify at 1.
    rewrite (bind_Normal _ _ _ _ _
               (buildNodeReference_documented node (Some label) filter _
                  token parameters Hsel)).
    reflexivity. }
  cbn [query nodes params return_ set_query set_params set_nodes
       default from_option id].
  rewrite Hquery, Hnodes, Hparams, Hreturn.
  split; [done |]. split; [apply JsMap_has_set |].
  split; [apply JsMap_keys_set | done].
Qed.





(** ** Relationships with a pattern, and [join] *)




Lemma join_empty_text (s : string) : Str.join "" [s; ""; ""] = s.
Proof. cbn. by rewrite !str_app_nil_r. Qed.

(** X11: [join] without a relationship label and alias returns for any two
    strings, registered as aliases or not, and even empty: it commits the
    one clause [MATCH (source)<arrow>(target)] with the strings as they
    are and the bare arrow of the direction, and leaves the registered
    aliases, the parameters and the return clause as they were. *)
Theorem join_bare_passes_through
    (V : Type) (sourceNode targetNode : string)
    (direction : option RelationshipDirections)
    (attributes : js (RelationshipRef V)) (this : Builder V) :
  neitherLabelNorAlias attributes = true ->
  exists this',
    join sourceNode targetNode direction attributes this = (Normal tt, this')
    /\ query this'
       = query this
         ++ ["MATCH " +:+ ("(" +:+ sourceNode +:+ ")")
             +:+ bareArrow direction +:+ ("(" +:+ targetNode +:+ ")")]
    /\ nodes this' = nodes this
    /\ params this' = params this
    /\ return_ this' = return_ this.
Proof.
  intros Hbare.
  set (this1 := set_params (Obj.spread (params this) ∅) this).
  set (this2 := set_params (Obj.spread (params this1) ∅) this1).
  assert (exists a, default_param NodeSelector.empty attributes = object a
                    /\ Str.truthy_opt (NodeSelector.label a) = false
                    /\ Str.truthy_opt (NodeSelector.variable a) = false)
    as (a & Ha & Hlabel & Hvariable).
  { destruct attributes as [| |a]; [by eexists | discriminate |].
    exists a. cbn in Hbare. apply andb_prop in Hbare as [H1 H2].
    apply negb_true_iff in H1, H2. done. }
  destruct (generateNodeVar_frame (NodeSelector.variable a) this2)
    as (relationshipVar & this3 & Hgen & Hnodes & Hparams & Hquery & Hreturn).
  assert (getNodeVarOrGenerate (Some sourceNode) this
          = (Normal sourceNode, this)) as HsVar by reflexivity.
  assert (buildNodeReference sourceNode None undefined this
          = (Normal (Str.join "" [sourceNode; ""; ""]), this1)) as HsRef
    by reflexivity.
  assert (getNodeVarOrGenerate (Some targetNode) this1
          = (Normal targetNode, this1)) as HtVar by reflexivity.
  assert (buildNodeReference targetNode None undefined this1
          = (Normal (Str.join "" [targetNode; ""; ""]), this2)) as HtRef
    by reflexivity.
  assert (buildRelationshipReference
            (NodeSelector.Build_selector None (Some sourceNode) undefined)
            (NodeSelector.Build_selector None (Some targetNode) undefined)
            (Some (default none direction)) attributes this
          = (Normal (("(" +:+ Str.join "" [sourceNode; ""; ""] +:+ ")")
                     +:+ bareArrow direction
                     +:+ ("(" +:+ Str.join "" [targetNode; ""; ""] +:+ ")")),
             this3)) as Hrel.
  { unfold buildRelationshipReference. rewrite Ha.
    cbn [NodeSelector.variable NodeSelector.label NodeSelector.properties].
    rewrite (bind_Normal _ _ _ _ _ HsVar), (bind_Normal _ _ _ _ _ HsRef).
    rewrite (bind_Normal _ _ _ _ _ HtVar), (bind_Normal _ _ _ _ _ HtRef).
    unfold bind at 1. unfold ret at 1.
    rewrite (bind_Normal _ _ _ _ _ Hgen).
    rewrite Hlabel, Hvariable. cbn [orb].
    unfold bind, ret. cbn [Str.truthy String.eqb negb].
    unfold bareArrow. by destruct direction as [[| | |]|]. }
  eexists. split.
  { unfold join. rewrite (bind_Normal _ _ _ _ _ Hrel). reflexivity. }
  cbn [query nodes params return_ set_query].
  rewrite Hquery, Hnodes, Hparams, Hreturn, !join_empty_text.
  unfold this2, this1. cbn [query nodes params return_ set_params].
  unfold Obj.spread. by rewrite !(left_id_L ∅ (∪)).
Qed.

Lemma join_bare_passes_through_witness :
  neitherLabelNorAlias (V:=Z) undefined = true
  /\ exists this',
       join (V:=Z) "ghost" "" (Some to) undefined newBuilder
       = (Normal tt, this')
       /\ query this'
          = [] ++ ["MATCH " +:+ ("(" +:+ "ghost" +:+ ")")
                   +:+ bareArrow (Some to) +:+ ("(" +:+ "" +:+ ")")]
       /\ nodes this' = []
       /\ params this' = ∅
       /\ return_ this' = "".
Proof.
  split; [reflexivity |].
  apply (join_bare_passes_through Z "ghost" "" (Some to) undefined newBuilder).
  reflexivity.
Defined.

(** ** The custom return clause *)

Section Return.
Context {V : Type}.
Implicit Types this : Builder V.

Lemma generateNodeVar_return variable :
  Keeps (V:=V) (fun this this' => return_ this' = return_ this)
    (generateNodeVar variable).
Proof.
  intros this c this' Hrun.
  destruct (generateNodeVar_frame variable this)
    as (nodeVar & this'' & Hframe & _ & _ & _ & Hreturn).
  rewrite Hframe in Hrun. by injection Hrun as _ <-.
Qed.

Lemma perform_return (c : Call) this :
  match c with CallCustomReturn _ => False | _ => True end ->
  return_ (perform c this).2 = return_ this.
Proof.
  intros Hc.
  set (R := fun this this' : Builder V => return_ this' = return_ this).
  assert (forall this, R this this) as Hrefl by done.
  assert (forall this1 this2 this3, R this1 this2 -> R this2 this3 ->
                                    R this1 this3) as Htrans
    by (unfold R; intros; congruence).
  assert (Keeps R (perform c)) as Hkeeps.
  { destruct c; cbn in Hc; try contradiction; cbn [perform];
      (apply Keeps_bind; try assumption;
       [| intros ?; apply Keeps_ret; assumption]).
    - apply Keeps_select; try done. apply generateNodeVar_return.
    - apply Keeps_createNode; try done. apply generateNodeVar_return.
    - apply Keeps_join; try done. apply generateNodeVar_return.
    - by apply Keeps_buildNodeReference.
    - apply Keeps_buildRelationshipReference; try done.
      apply generateNodeVar_return.
    - unfold build. apply Keeps_bind; try assumption;
        [by apply Keeps_get | intros ?; by apply Keeps_ret]. }
  apply (Hkeeps this (perform c this).1). by destruct (perform c this).
Qed.

Lemma performAll_return (cs : list Call) this :
  Forall (fun c => match c with CallCustomReturn _ => False | _ => True end)
    cs ->
  return_ (performAll cs this) = return_ this.
Proof.
  intros Hcs. revert this.
  induction Hcs as [|c cs Hc _ IH]; intros this; [reflexivity |].
  cbn [performAll]. by rewrite IH, perform_return.
Qed.

End Return.

(** X12: a custom return clause stays in force whatever is called after
    it, short of another [customReturn]: [build()] then returns the
    committed clauses followed by [RETURN] and the names given to
    [customReturn], joined by commas without a space, whether these names
    are registered or not and whichever aliases are. *)
Theorem custom_return_persists
    (V : Type) (names : list string) (cs : list (Call (V:=V)))
    (this : Builder V) :
  Forall (fun c => match c with CallCustomReturn _ => False | _ => True end)
    cs ->
  build (performAll cs (customReturn names this).2)
  = (Normal {| Built.query :=
                 Str.join " "
                   (query (performAll cs (customReturn names this).2)
                    ++ ["RETURN " +:+ Str.join "," names]);
               Built.params :=
                 params (performAll cs (customReturn names this).2) |},
     performAll cs (customReturn names this).2).
Proof.
  intros Hcs. unfold build, bind, get, ret.
  by rewrite (performAll_return cs _ Hcs).
Qed.

Lemma custom_return_persists_witness :
  Forall (fun c : Call (V:=Z) =>
            match c with CallCustomReturn _ => False | _ => True end)
    [joinRacesAt]
  /\ (build (performAll [joinRacesAt] (customReturn ["x"] carAndProp).2)).1
     = Normal {| Built.query :=
                   "MATCH (car:Car) MATCH (prop:Property) "
                   +:+ "MATCH (car)-[r:RACES_AT {since: $r_since}]->(prop) "
                   +:+ "RETURN x";
                 Built.params := {[ "r_since" := 2023%Z ]} |}.
Proof.
  assert (Forall (fun c : Call (V:=Z) =>
                    match c with CallCustomReturn _ => False | _ => True end)
            [joinRacesAt]) as Hcs by (repeat constructor).
  split; [exact Hcs |].
  rewrite (custom_return_persists Z ["x"] [joinRacesAt] carAndProp Hcs).
  vm_compute. reflexivity.
Defined.

(** ** The statements of [neo4j.ts] *)

(** X13: with a [where] that is a mapping or missing (also with no query
    object at all), [Neo4j.select] submits the statement
    [MATCH (n<:table><token>) RETURN n], where the token and the
    parameters are those of the property serializer for the alias [n]. *)
Theorem selectStatement_shape
    (V : Type) (table : string) (query : js (Neo4j.QueryInterface (V:=V))) :
  let where_ :=
    match query with
    | object query => Neo4j.where_ query
    | _ => undefined
    end in
  optional plainMapping where_ = true ->
  exists token parameters,
    generatePropertySelectors "n" (default_param [] where_)
    = Normal (token, parameters)
    /\ Neo4j.selectStatement table query
       = Normal {| Built.query :=
                     ("MATCH (" +:+ nodeReferenceText "n" table token +:+ ")")
                     +:+ " RETURN n";
                   Built.params := parameters |}.
Proof.
  intros where_ Hshape.
  destruct (select_result V table (Some "n") where_ newBuilder Hshape)
    as (node & this1 & token & parameters & this' & Hgen & Hsel & Hrun
        & Hquery & _ & Hkeys & Hparams & Hreturn).
  injection Hgen as <- <-.
  exists token, parameters. split; [exact Hsel |].
  unfold Neo4j.selectStatement. fold where_.
  rewrite (bind_Normal _ _ _ _ _ Hrun).
  unfold build, bind, get, ret. cbn [fst].
  rewrite Hquery, Hreturn, Hparams.
  replace (JsMap.keys (nodes this')) with ["n"] by (by rewrite Hkeys).
  unfold Obj.spread. cbn [params newBuilder].
  by rewrite (right_id_L ∅ (∪)).
Qed.

Lemma selectStatement_shape_witness :
  optional (plainMapping (V:=Z)) (object [("id", 1%Z)]) = true
  /\ exists token parameters,
       generatePropertySelectors "n" (default_param [] (object [("id", 1%Z)]))
       = Normal (token, parameters)
       /\ Neo4j.selectStatement "TestLabel"
            (object {| Neo4j.where_ := object [("id", 1%Z)];
                       Neo4j.join_ := undefined |})
          = Normal {| Built.query :=
                        ("MATCH (" +:+ nodeReferenceText "n" "TestLabel" token
                         +:+ ")") +:+ " RETURN n";
                      Built.params := parameters |}.
Proof.
  split; [reflexivity |].
  apply (selectStatement_shape Z "TestLabel"
           (object {| Neo4j.where_ := object [("id", 1%Z)];
                      Neo4j.join_ := undefined |})).
  reflexivity.
Defined.

(** The case of the repository's test of [select]. *)
Lemma test_facade_select :
  Neo4j.selectStatement "TestLabel"
    (object {| Neo4j.where_ := object [("id", 1%Z)];
               Neo4j.join_ := undefined |})
  = Normal {| Built.query := "MATCH (n:TestLabel {id: $n_id}) RETURN n";
              Built.params := {[ "n_id" := 1%Z ]} |}.
Proof. vm_compute. reflexivity. Qed.



(** With an empty label the two differ: the builder leaves the colon
    out. *)
Lemma directionStr_empty_label :
  scenario (buildRelationshipReference
              (NodeSelector.Build_selector None (Some "source") undefined)
              (NodeSelector.Build_selector None (Some "target") undefined)
              (Some from)
              (object (NodeSelector.Build_selector (Some "") (Some "r")
                         undefined)))
  = Normal "(source)-[r]->(target)"
  /\ "(source)" +:+ Neo4j.directionStr "" from +:+ "(target)"
     = "(source)-[r:]->(target)".
Proof. split; vm_compute; reflexivity. Qed.

(** ** [parseDateProperties] and [parseResponse] *)

Section Dates.
Context {DateTime Other : Type} (toString : DateTime -> string).
Abbreviation Field := (Helpers.Field (DateTime:=DateTime) (Other:=Other)).
Abbreviation stringified := (Helpers.stringified toString).
Abbreviation parseDateProperties := (Helpers.parseDateProperties toString).
Implicit Types (o : gmap string Field) (dateKeys : list string).

Lemma stringified_idemp (f : Field) :
  stringified (stringified f) = stringified f.
Proof. by destruct f. Qed.

Lemma parseDateProperties_object dateKeys :
  forall o,
    exists o',
      parseDateProperties (object o) dateKeys = Normal (object o')
      /\ forall k,
           o' !! k
           = if decide (k ∈ dateKeys) then stringified <$> o !! k
             else o !! k.
Proof.
  induction dateKeys as [|key dateKeys IH]; intros o.
  - exists o. split; [reflexivity |]. intros k.
    by rewrite decide_False by apply not_elem_of_nil.
  - cbn [Helpers.parseDateProperties].
    set (o1 := match o !! key with
               | Some (Helpers.FDateTime d) =>
                   <[key := Helpers.FString (toString d)]> o
               | _ => o
               end).
    assert (forall k, o1 !! k
                      = if decide (k = key) then stringified <$> o !! k
                        else o !! k) as Ho1.
    { intros k. unfold o1. destruct (decide (k = key)) as [->|Hne].
      - destruct (o !! key) as [[d| | |]|] eqn:Hkey;
          rewrite ?lookup_insert_eq, ?Hkey; done.
      - destruct (o !! key) as [[d| | |]|];
          rewrite ?lookup_insert_ne by done; done. }
    destruct (IH o1) as (o' & Hrun & Ho').
    exists o'. split; [exact Hrun |].
    intros k. rewrite Ho', Ho1.
    destruct (decide (k = key)) as [->|Hne].
    + rewrite (decide_True (P := key ∈ key :: dateKeys))
        by (apply elem_of_cons; auto).
      destruct (decide (key ∈ dateKeys)); [| done].
      destruct (o !! key) as [f|]; [| done].
      cbn. by rewrite stringified_idemp.
    + destruct (decide (k ∈ dateKeys)) as [Hin|Hnotin].
      * by rewrite decide_True by (apply elem_of_cons; auto).
      * rewrite decide_False; [done |].
        intros [?|?]%elem_of_cons; done.
Qed.

End Dates.

(** X15: on an object, [parseDateProperties] returns an object with the
    same property names in which every property named in [dateKeys] that
    held a [DateTime] holds its string form, and every other property holds
    what it held; a name of [dateKeys] that the object does not have is
    skipped.  On [undefined] and [null] it returns its argument when
    [dateKeys] is empty and throws a [TypeError] otherwise. *)
Theorem parseDateProperties_spec
    (DateTime Other : Type) (toString : DateTime -> string)
    (dateKeys : list string) :
  (forall o : gmap string (Helpers.Field (DateTime:=DateTime) (Other:=Other)),
      exists o',
        Helpers.parseDateProperties toString (object o) dateKeys
        = Normal (object o')
        /\ dom o' = dom o
        /\ forall k,
             o' !! k
             = if decide (k ∈ dateKeys)
               then Helpers.stringified toString <$> o !! k
               else o !! k)
  /\ Helpers.parseDateProperties (Other:=Other) toString undefined dateKeys
     = match dateKeys with
       | [] => Normal undefined
       | _ :: _ => Throw TypeError
       end
  /\ Helpers.parseDateProperties (Other:=Other) toString null dateKeys
     = match dateKeys with
       | [] => Normal null
       | _ :: _ => Throw TypeError
       end.
Proof.
  split; [| split; by destruct dateKeys].
  intros o.
  destruct (parseDateProperties_object toString dateKeys o)
    as (o' & Hrun & Ho').
  exists o'. split; [exact Hrun |]. split; [| exact Ho'].
  apply set_eq. intros k. rewrite !elem_of_dom, Ho'.
  destruct (decide (k ∈ dateKeys)); [| done].
  by rewrite fmap_is_Some.
Qed.

(** X16: [parseDateProperties] changes nothing when it is applied again,
    with the same names, to what it returned. *)
Theorem parseDateProperties_idempotent
    (DateTime Other : Type) (toString : DateTime -> string)
    (dateKeys : list string)
    (data data' : js (gmap string
                        (Helpers.Field (DateTime:=DateTime) (Other:=Other)))) :
  Helpers.parseDateProperties toString data dateKeys = Normal data' ->
  Helpers.parseDateProperties toString data' dateKeys = Normal data'.
Proof.
  destruct data as [| |o].
  - destruct dateKeys; [by intros [= <-] | discriminate].
  - destruct dateKeys; [by intros [= <-] | discriminate].
  - destruct (parseDateProperties_object toString dateKeys o)
      as (o' & Hrun & Ho').
    rewrite Hrun. intros [= <-].
    destruct (parseDateProperties_object toString dateKeys o')
      as (o'' & Hrun' & Ho'').
    rewrite Hrun'. do 2 f_equal. apply map_eq. intros k.
    rewrite Ho'', Ho'. destruct (decide (k ∈ dateKeys)); [| done].
    destruct (o !! k) as [f|]; [| done].
    cbn. by rewrite stringified_idemp.
Qed.

Lemma parseDateProperties_idempotent_witness :
  Helpers.parseDateProperties (Other:=nat) pretty
    (object {[ "createdAt" := Helpers.FDateTime 7 ]}) ["createdAt"]
  = Normal (object {[ "createdAt" := Helpers.FString "7" ]})
  /\ Helpers.parseDateProperties (DateTime:=nat) (Other:=nat) pretty
       (object {[ "createdAt" := Helpers.FString "7" ]}) ["createdAt"]
     = Normal (object {[ "createdAt" := Helpers.FString "7" ]}).
Proof.
  assert (Helpers.parseDateProperties (Other:=nat) pretty
            (object {[ "createdAt" := Helpers.FDateTime 7 ]}) ["createdAt"]
          = Normal (object {[ "createdAt" := Helpers.FString "7" ]})) as Hrun
    by (vm_compute; reflexivity).
  split; [exact Hrun |].
  exact (parseDateProperties_idempotent nat nat pretty ["createdAt"] _ _ Hrun).
Defined.

Section Response.
Context {DateTime Other : Type} (toString : DateTime -> string).
Abbreviation NodeValue :=
  (Helpers.NodeValue (DateTime:=DateTime) (Other:=Other)).

(** The properties that a node contributes. *)
Lemma parseValues_spec (values : list NodeValue) :
  exists out,
    Helpers.parseValues toString values = Normal out
    /\ length out = length values
    /\ forall i record,
         values !! i = Some record ->
         exists o,
           out !! i = Some (object o)
           /\ o !! "_id" = Some (Helpers.identity record)
           /\ o !! "labels" = Some (Helpers.labels record)
           /\ forall k,
                k <> "_id" -> k <> "labels" ->
                o !! k
                = let own :=
                    match Helpers.properties record with
                    | object own => own
                    | _ => ∅
                    end in
                  if decide (k ∈ ["createdAt"; "updatedAt"; "identity"])
                  then Helpers.stringified toString <$> own !! k
                  else own !! k.
Proof.
  induction values as [|record values (out & Hrun & Hlen & Hout)].
  - exists []. repeat split. intros i record Hi. by destruct i.
  - destruct (parseDateProperties_object toString
                ["createdAt"; "updatedAt"; "identity"]
                (Helpers.flattened record)) as (o & Hparse & Ho).
    exists (object o :: out). cbn [Helpers.parseValues].
    rewrite Hparse, Hrun. split; [reflexivity |].
    split; [cbn; by rewrite Hlen |].
    intros [|i] record' Hi; [| by apply Hout].
    injection Hi as <-. exists o. split; [reflexivity |].
    unfold Helpers.flattened in Ho.
    assert (forall k, k = "_id" \/ k = "labels" ->
                      k ∉ ["createdAt"; "updatedAt"; "identity"]) as Hnot.
    { intros k Hk Hin.
      repeat (apply elem_of_cons in Hin as [->|Hin];
              [by destruct Hk |]).
      by apply elem_of_nil in Hin. }
    split; [| split].
    + rewrite Ho, decide_False by (apply Hnot; auto).
      apply lookup_insert_eq.
    + rewrite Ho, decide_False by (apply Hnot; auto).
      by rewrite lookup_insert_ne, lookup_insert_eq.
    + intros k Hid Hlabels. rewrite Ho.
      by rewrite !lookup_insert_ne by done.
Qed.

End Response.

(** X17: [parseResponse] returns one object for every node of every
    record, in the order of the result.  The object holds the labels of the
    node under [labels] and its identity under [_id], in the place of any
    property of the node with these names; its properties [createdAt],
    [updatedAt] and [identity] that are a [DateTime] as strings; and every
    other property of the node as it is. *)
Theorem parseResponse_spec
    (DateTime Other : Type) (toString : DateTime -> string)
    (result : list (list (Helpers.NodeValue (DateTime:=DateTime)
                            (Other:=Other)))) :
  exists out,
    Helpers.parseResponse toString result = Normal out
    /\ length out = length (concat result)
    /\ forall i record,
         concat result !! i = Some record ->
         exists o,
           out !! i = Some (object o)
           /\ o !! "_id" = Some (Helpers.identity record)
           /\ o !! "labels" = Some (Helpers.labels record)
           /\ forall k,
                k <> "_id" -> k <> "labels" ->
                o !! k
                = let own :=
                    match Helpers.properties record with
                    | object own => own
                    | _ => ∅
                    end in
                  if decide (k ∈ ["createdAt"; "updatedAt"; "identity"])
                  then Helpers.stringified toString <$> own !! k
                  else own !! k.
Proof. apply parseValues_spec. Qed.

(** The case of the repository's test of [parseResponse], in which the
    node has no identity. *)
Lemma test_parseResponse :
  Helpers.parseResponse (DateTime:=nat) pretty
    [[ {| Helpers.properties :=
            object {[ "id" := Helpers.FOther 1; "name" := Helpers.FString "Test" ]};
          Helpers.labels := Helpers.FOther 0;
          Helpers.identity := Helpers.FUndefined |} ]]
  = Normal [object {[ "id" := Helpers.FOther 1;
                      "name" := Helpers.FString "Test";
                      "labels" := Helpers.FOther 0;
                      "_id" := Helpers.FUndefined ]}].
Proof. vm_compute. reflexivity. Qed.

(** ** A requested alias *)

Lemma filter_length_pos {A} (P : A -> Prop) `{!forall x, Decision (P x)}
    (l : list A) (x : A) :
  x ∈ l -> P x -> 1 <= length (filter P l).
Proof.
  intros Hx HP.
  assert (x ∈ filter P l) as Hin by (by apply list_elem_of_filter).
  destruct (filter P l); [by apply elem_of_nil in Hin | cbn; lia].
Qed.

(** X18: a requested non-empty alias is returned as it is when it is not
    registered, and otherwise followed by [_n], where [n >= 1] is the
    number of registered aliases that start with it; either way the
    generator leaves the builder, its counters included, untouched.  The
    empty string is treated as no request. *)
Theorem requested_alias
    (V : Type) (alias : string) (this : Builder V) :
  (Str.truthy alias = true ->
   generateNodeVar (Some alias) this
   = (Normal (if JsMap.has alias (nodes this)
              then alias +:+ "_" +:+ pretty (length (similarNodes alias this))
              else alias), this)
   /\ (JsMap.has alias (nodes this) = true ->
       1 <= length (similarNodes alias this)))
  /\ generateNodeVar (Some "") this = generateNodeVar None this.
Proof.
  split; [| reflexivity].
  intros Halias. split; [by apply generateNodeVar_explicit |].
  intros Hhas. unfold JsMap.has in Hhas.
  apply existsb_exists in Hhas as (x & Hx%list_elem_of_In & <-%String.eqb_eq).
  unfold similarNodes. apply (filter_length_pos _ _ alias); [done |].
  apply (startsWith_suffixed alias 0).
Qed.

Lemma requested_alias_witness :
  Str.truthy "car" = true
  /\ generateNodeVar (Some "car") carAndProp = (Normal "car_1", carAndProp).
Proof.
  split; [reflexivity |].
  exact (proj1 (proj1 (requested_alias Z "car" carAndProp) eq_refl)).
Defined.

(** ** The statement always has a return clause *)

Lemma perform_projection {V : Type} (c : Call (V:=V)) (this : Builder V) :
  (return_ this = "" \/ exists x, return_ this = "RETURN " +:+ x) ->
  return_ (perform c this).2 = ""
  \/ exists x, return_ (perform c this).2 = "RETURN " +:+ x.
Proof.
  intros HP.
  destruct c; try (by rewrite perform_return).
  right. by eexists.
Qed.

Lemma performAll_projection {V : Type} (cs : list (Call (V:=V)))
    (this : Builder V) :
  (return_ this = "" \/ exists x, return_ this = "RETURN " +:+ x) ->
  return_ (performAll cs this) = ""
  \/ exists x, return_ (performAll cs this) = "RETURN " +:+ x.
Proof.
  revert this. induction cs as [|c cs IH]; intros this HP; [exact HP |].
  cbn [performAll]. by apply IH, perform_projection.
Qed.

(** X19: on a builder created by [new], after any public calls with any
    arguments, returning or throwing, [build()] returns the committed
    clauses and one last clause joined by spaces, without changing the
    builder; the last clause is the custom return clause when one is set and
    otherwise [RETURN] and the registered aliases joined by a comma and a
    space; in both cases it starts with [RETURN ], and the query is the
    joined committed clauses, a space when there are any, and then that
    clause. *)
Theorem build_ends_with_return (V : Type) (cs : list (Call (V:=V))) :
  exists clause projection,
    clause = "RETURN " +:+ projection
    /\ ((return_ (performAll cs newBuilder) = ""
         /\ clause = defaultReturn (performAll cs newBuilder))
        \/ (return_ (performAll cs newBuilder) <> ""
            /\ clause = return_ (performAll cs newBuilder)))
    /\ build (performAll cs newBuilder)
       = (Normal {| Built.query :=
                      Str.join " " (query (performAll cs newBuilder)
                                    ++ [clause]);
                    Built.params := params (performAll cs newBuilder) |},
          performAll cs newBuilder)
    /\ Str.join " " (query (performAll cs newBuilder) ++ [clause])
       = match query (performAll cs newBuilder) with
         | [] => ""
         | _ => Str.join " " (query (performAll cs newBuilder)) +:+ " "
         end +:+ clause.
Proof.
  set (this := performAll cs (newBuilder (V:=V))).
  assert (forall clause,
             Str.join " " (query this ++ [clause])
             = match query this with
               | [] => ""
               | _ => Str.join " " (query this) +:+ " "
               end +:+ clause) as Hjoin.
  { intros clause. rewrite join_snoc.
    destruct (query this); [done |]. by rewrite !str_app_assoc. }
  destruct (performAll_projection cs (newBuilder (V:=V)))
    as [Hnone|(x & Hcustom)]; [by left | |].
  - fold this in Hnone.
    exists (defaultReturn this), (Str.join ", " (JsMap.keys (nodes this))).
    split; [reflexivity |]. split; [by left |]. split; [| apply Hjoin].
    unfold build, bind, get, ret. by rewrite Hnone.
  - fold this in Hcustom. exists (return_ this), x.
    split; [exact Hcustom |]. split; [| split; [| apply Hjoin]].
    + right. split; [| done]. by rewrite Hcustom.
    + unfold build, bind, get, ret. by rewrite Hcustom.
Qed.
